(** * Aspect detection, refinement and de-duplication: a shallow embedding

    The Python sources embedded here are
    - [major/pattern_demo.py]: module [PatternDemo];
    - [major/bitcoin/calculate_aspects.py]: the angle functions in module
      [AngleMath] (the same [angular_distance] is in
      [major/interactive_gann_aspect_calculator.py]), the Swiss-Ephemeris
      solver and scan in module [Scanner], the class [AspectCalculator] in
      the module of that name;
    - [major/custom_gann_aspect_finder.py]: module [CustomGann].

    Conventions.  Python floats (longitudes, angles, dates) are rationals
    [Q], and [float('inf')] is a constructor of its own.  Arithmetic on
    them is exact, rounding error being left out, except for the Julian
    days of the module [Scanner]: its solver halves an interval a hundred
    times, the rounding of the sums decides which instant comes back, and
    so every sum, difference and quotient of Julian days is rounded there
    as binary64 rounds it ([Py.binary64]).  Python [None] is [option]'s
    [None].  An exception that leaves a function is the [Raise] constructor
    of [res].  A [while] loop runs on fuel, [None] meaning that the fuel ran
    out.  A dictionary is the list of its items in insertion order.
    Time-zone formatting and printing are not modelled, and the records
    keep the numeric and name fields only.  Of the calendar calls, the one
    that raises is modelled: the call of the name [datetime] in
    calculate_aspects.py. *)

From Stdlib Require Import ZArith QArith Qabs Qminmax Qround Qpower Bool List String.
From Stdlib Require Import Ascii Lia Lqa DecimalString Sorted.
Import ListNotations.

Open Scope Q_scope.

(** ** Python values shared by all modules *)

Module Py.

Inductive exn : Type := TypeError | KeyError | ZeroDivisionError.

Inductive res (A : Type) : Type :=
| Ok (a : A)
| Raise (e : exn).

Arguments Ok {A} a.
Arguments Raise {A} e.

Definition bind {A B : Type} (c : res A) (k : A -> res B) : res B :=
  match c with
  | Ok a => k a
  | Raise e => Raise e
  end.

(** [for x in xs: st = body st x], leaving at the first exception. *)
Fixpoint for_each {A S : Type} (body : S -> A -> res S) (xs : list A) (st : S)
  : res S :=
  match xs with
  | [] => Ok st
  | x :: xs' => bind (body st x) (for_each body xs')
  end.

(** [x < y] on floats. *)
Definition Qltb (x y : Q) : bool := negb (Qle_bool y x).

(** A float that may be [float('inf')]. *)
Inductive efloat : Type :=
| Fin (q : Q)
| Inf.

Definition efloat_ltb (a b : efloat) : bool :=
  match a, b with
  | Fin x, Fin y => Qltb x y
  | Fin _, Inf => true
  | Inf, _ => false
  end.

(** Truth value of a float: [if x:] fails exactly for zero. *)
Definition truthy (x : Q) : bool := negb (Qeq_bool x 0).

(** [round(y)] to the nearest integer, ties to even. *)
Definition round_half_even (y : Q) : Z :=
  let f := Qfloor y in
  match Qcompare (y - inject_Z f) (1 # 2) with
  | Lt => f
  | Gt => (f + 1)%Z
  | Eq => if Z.even f then f else (f + 1)%Z
  end.

(** [round(x, 6)]. *)
Definition round6 (x : Q) : Q :=
  inject_Z (round_half_even (x * 1000000)) / 1000000.

(** [floor(log2(x))] for [x > 0]. *)
Definition ilog2 (x : Q) : Z :=
  let e := (Z.log2 (Qnum x) - Z.log2 (Zpos (Qden x)))%Z in
  if Qle_bool (2 ^ e) x then e else (e - 1)%Z.

(** The double nearest to [x > 0]: 53 significant bits, a tie going to the
    even significand.  The exponent range is taken unbounded, Julian days
    being far from overflow and underflow. *)
Definition nearest (x : Q) : Q :=
  let ulp := 2 ^ (ilog2 x - 52) in
  inject_Z (round_half_even (x / ulp)) * ulp.

(** The double that a real result is rounded to. *)
Definition binary64 (x : Q) : Q :=
  match Qcompare x 0 with
  | Eq => 0
  | Gt => nearest x
  | Lt => - nearest (- x)
  end.

(** [x + y], [x - y] and [x / y] on doubles. *)
Definition fadd (x y : Q) : Q := binary64 (x + y).
Definition fsub (x y : Q) : Q := binary64 (x - y).
Definition fdiv (x y : Q) : Q := binary64 (x / y).

(** The rationals that are doubles. *)
Definition is_float (x : Q) : Prop := binary64 x == x.

(** [str(n)] for an integer and [len]. *)
Definition str (n : Z) : string := NilZero.string_of_int (Z.to_int n).

(** [d[key]] on a dictionary kept as its list of items. *)
Fixpoint lookup {V : Type} (d : list (string * V)) (key : string) : res V :=
  match d with
  | [] => Raise KeyError
  | (k, v) :: d' => if String.eqb k key then Ok v else lookup d' key
  end.

(** A dictionary kept as its list of items, in insertion order. *)
Section Dict.

Context {K V : Type} (eqb : K -> K -> bool).

(** [d.get(key)], that is [key in d] together with [d[key]]. *)
Fixpoint dict_get (d : list (K * V)) (key : K) : option V :=
  match d with
  | [] => None
  | (k, v) :: d' => if eqb k key then Some v else dict_get d' key
  end.

(** [d[key] = v]: an existing key keeps its place, a new one goes last. *)
Fixpoint dict_set (d : list (K * V)) (key : K) (v : V) : list (K * V) :=
  match d with
  | [] => [(key, v)]
  | (k, v') :: d' =>
      if eqb k key then (k, v) :: d' else (k, v') :: dict_set d' key v
  end.

Definition dict_values (d : list (K * V)) : list V := map snd d.

End Dict.

End Py.

Import Py.

Notation "x <- c ;; k" := (bind c (fun x => k))
  (at level 61, c at next level, right associativity).

(** ** major/pattern_demo.py *)

Module PatternDemo.

Definition priority_patterns : list Z := [45; 90; 135; 180; 225; 270; 315; 360]%Z.

Definition is_in (price : Z) (l : list Z) : bool := existsb (Z.eqb price) l.

Definition is_bold_pattern (price : Z) : bool :=
  let price_len := String.length (str price) in
  if is_in price priority_patterns then true
  else if (price_len =? 5)%nat
          && (let last_2_digits := (price mod 100)%Z in
              let first_3_digits := (price / 100)%Z in
              (last_2_digits =? 0)%Z && (first_3_digits mod 45 =? 0)%Z
              && (0 <? first_3_digits)%Z) then true
  else if (price_len =? 4)%nat
          && (let last_2_digits := (price mod 100)%Z in
              let first_2_digits := (price / 100)%Z in
              (last_2_digits =? 0)%Z && (first_2_digits mod 45 =? 0)%Z
              && (0 <? first_2_digits)%Z) then true
  else if (price_len =? 3)%nat
          && ((price mod 45 =? 0)%Z && (0 <? price)%Z) then true
  else false.

Definition is_short_term_pattern (price : Z) : bool :=
  let price_len := String.length (str price) in
  if (price_len =? 5)%nat
     && (let last_3_digits := (price mod 1000)%Z in
         (last_3_digits mod 45 =? 0)%Z && (0 <? last_3_digits)%Z
         && (let first_3_digits := (price / 100)%Z in
             negb (first_3_digits mod 45 =? 0)%Z || (first_3_digits =? 0)%Z))
  then true
  else if (price_len =? 4)%nat
     && (let last_3_digits := (price mod 1000)%Z in
         (last_3_digits mod 45 =? 0)%Z && (0 <? last_3_digits)%Z
         && (let first_2_digits := (price / 100)%Z in
             negb (first_2_digits mod 45 =? 0)%Z || (first_2_digits =? 0)%Z))
  then true
  else false.

Definition is_regular_45_multiple (price : Z) : bool :=
  if negb (price mod 45 =? 0)%Z || (price <=? 0)%Z then false
  else if is_in price priority_patterns then false
  else if is_bold_pattern price then false
  else if is_short_term_pattern price then false
  else true.

(** [explain_pattern]: [None] stands for falling through a block of
    [if]s without reaching a [return]. *)
Definition explain_long (price : Z) (price_len : nat) : option string :=
  if (price_len =? 5)%nat
     && (let last_2_digits := (price mod 100)%Z in
         let first_3_digits := (price / 100)%Z in
         (last_2_digits =? 0)%Z && (first_3_digits mod 45 =? 0)%Z)
  then Some ("xxx00 pattern (first 3: " ++ str (price / 100) ++ " ÷ 45 = "
             ++ str (price / 100 / 45) ++ ", last 2: 00)")%string
  else if (price_len =? 4)%nat
     && (let last_2_digits := (price mod 100)%Z in
         let first_2_digits := (price / 100)%Z in
         (last_2_digits =? 0)%Z && (first_2_digits mod 45 =? 0)%Z)
  then Some ("xx00 pattern (first 2: " ++ str (price / 100) ++ " ÷ 45 = "
             ++ str (price / 100 / 45) ++ ", last 2: 00)")%string
  else if (price_len =? 3)%nat
  then Some ("xxx pattern (" ++ str price ++ " ÷ 45 = "
             ++ str (price / 45) ++ ")")%string
  else None.

Definition explain_short (price : Z) (price_len : nat) : option string :=
  if (price_len =? 5)%nat
  then Some ("yyxxx pattern (last 3: " ++ str (price mod 1000) ++ " ÷ 45 = "
             ++ str (price mod 1000 / 45) ++ ")")%string
  else if (price_len =? 4)%nat
  then Some ("yxxx pattern (last 3: " ++ str (price mod 1000) ++ " ÷ 45 = "
             ++ str (price mod 1000 / 45) ++ ")")%string
  else None.

Definition explain_pattern (price : Z) : string :=
  let price_len := String.length (str price) in
  let is_long := is_bold_pattern price in
  let is_short := is_short_term_pattern price in
  let is_regular := is_regular_45_multiple price in
  if negb is_long && negb is_short && negb is_regular
  then "Not a 45° pattern"%string
  else if is_regular
  then ("Regular 45° multiple (" ++ str price ++ " ÷ 45 = "
        ++ str (price / 45) ++ ")")%string
  else if is_in price priority_patterns
  then ("Priority Gann level (" ++ str price ++ "°)")%string
  else
    match (if is_long then explain_long price price_len else None) with
    | Some explanation => explanation
    | None =>
        match (if is_short then explain_short price price_len else None) with
        | Some explanation => explanation
        | None => "Unknown pattern"%string
        end
    end.

End PatternDemo.

(** ** Angle arithmetic (calculate_aspects.py, lines 108-141; the same
    [angular_distance] is in interactive_gann_aspect_calculator.py) *)

Module AngleMath.

Definition angular_distance (lon1 lon2 : Q) : Q :=
  let diff := Qabs (lon1 - lon2) in
  if Qltb 180 diff then 360 - diff else diff.

Definition angular_distance_both_arcs (lon1 lon2 : Q) : Q * Q :=
  let diff := Qabs (lon1 - lon2) in
  let short_arc := if Qle_bool diff 180 then diff else 360 - diff in
  let long_arc := if Qltb 180 diff then diff else 360 - diff in
  (short_arc, long_arc).

Definition is_aspect_within_orb (angle target_angle orb : Q) : bool :=
  let diff := Qabs (angle - target_angle) in
  let diff := if Qltb 180 diff then 360 - diff else diff in
  Qle_bool diff orb.

(** [normalize_angle]: the loop [while angle < 0: angle += 360] ... *)
Fixpoint add_turns (fuel : nat) (angle : Q) : option Q :=
  match fuel with
  | O => None
  | S fuel' => if Qltb angle 0 then add_turns fuel' (angle + 360) else Some angle
  end.

(** ... and the loop [while angle >= 360: angle -= 360]. *)
Fixpoint drop_turns (fuel : nat) (angle : Q) : option Q :=
  match fuel with
  | O => None
  | S fuel' =>
      if Qle_bool 360 angle then drop_turns fuel' (angle - 360) else Some angle
  end.

Definition normalize_angle (fuel : nat) (angle : Q) : option Q :=
  match add_turns fuel angle with
  | None => None
  | Some angle' => drop_turns fuel angle'
  end.

Definition is_aspect_within_orb_both_arcs
  (short_arc long_arc target_angle orb : Q) : bool :=
  let short_diff := Qabs (short_arc - target_angle) in
  let long_diff := Qabs (long_arc - target_angle) in
  Qle_bool short_diff orb || Qle_bool long_diff orb.

End AngleMath.

(** ** The Swiss-Ephemeris scanner (calculate_aspects.py, lines 18-295) *)

Module Scanner.

Import AngleMath.

(** Outcome of [swe.calc_ut(jd, planet_code, flags)]: it raises, or it
    returns the tuple of coordinates (longitude first).  The ephemeris is a
    function of the planet code and the Julian day. *)
Inductive swe_outcome : Type :=
| SweRaises
| SweReturns (result : list Q).

(** Swiss Ephemeris body numbers [swe.SUN] ... [swe.PLUTO]. *)
Definition planets : list (string * Z) :=
  [("Sun", 0); ("Moon", 1); ("Mercury", 2); ("Venus", 3); ("Mars", 4);
   ("Jupiter", 5); ("Saturn", 6); ("Uranus", 7); ("Neptune", 8);
   ("Pluto", 9)]%string%Z.

Record aspect_info : Type := mk_info
  { info_angle : Q; info_orb : Q; info_abbrev : string }.

Definition aspects : list (string * aspect_info) :=
  [("Conjunction", mk_info 0 (1 # 2) "Conj");
   ("Semisquare", mk_info 45 (1 # 2) "Semi");
   ("Sextile", mk_info 60 1 "Sext");
   ("Square", mk_info 90 1 "Sq");
   ("Trine", mk_info 120 1 "Trine");
   ("Gann109", mk_info 109 (1 # 2) "G109");
   ("Opposition", mk_info 180 1 "Opp");
   ("Gann74", mk_info 74 (1 # 2) "G74")]%string.

Definition all_planets : list string :=
  ["Sun"; "Moon"; "Mercury"; "Venus"; "Mars"; "Jupiter"; "Saturn"; "Uranus";
   "Neptune"; "Pluto"]%string.

(** The pairs [(all_planets[i], all_planets[j])] with [i < j], in the order
    of the two nested loops. *)
Fixpoint pairs_of (l : list string) : list (string * string) :=
  match l with
  | [] => []
  | p :: rest => map (pair p) rest ++ pairs_of rest
  end.

(** One row of [found_aspects]; the formatted date, time and description
    strings are left out. *)
Record aspect_data : Type := mk_data
  { planet1 : string;
    planet2 : string;
    aspect : string;
    aspect_abbrev : string;
    angle : Q;
    planet1_lon : Q;
    planet2_lon : Q;
    exact_jd : Q;
    angle_error : Q }.

Section WithEphemeris.

Variable calc_ut : Z -> Q -> swe_outcome.

(** [calculate_position]: the longitude, or [None] when the ephemeris
    raised or returned an empty result. *)
Definition calculate_position (planet_code : Z) (jd : Q) : option Q :=
  match calc_ut planet_code jd with
  | SweRaises => None
  | SweReturns [] => None
  | SweReturns (lon :: _) => Some lon
  end.

(** The local function of [find_exact_aspect_time]. *)
Definition angle_difference_from_target
  (planet1_code planet2_code : Z) (target_angle : Q) (jd : Q) : efloat :=
  match calculate_position planet1_code jd,
        calculate_position planet2_code jd with
  | Some pos1, Some pos2 =>
      let current_angle := angular_distance pos1 pos2 in
      if Qeq_bool target_angle 180 then Fin (Qabs (current_angle - 180))
      else
        let diff1 := Qabs (current_angle - target_angle) in
        let diff2 := Qabs (current_angle - (target_angle + 360)) in
        let diff3 := Qabs ((current_angle + 360) - target_angle) in
        Fin (Qmin (Qmin diff1 diff2) diff3)
  | _, _ => Inf
  end.

Definition tolerance : Q := 1 # 10000.

(** The [for iteration in range(n)] loop and the [return] after it; the
    midpoint is [(left_jd + right_jd) / 2] on doubles. *)
Fixpoint bisect (f : Q -> efloat) (n : nat) (left_jd right_jd : Q) : Q :=
  match n with
  | O => fdiv (fadd left_jd right_jd) 2
  | S n' =>
      let mid_jd := fdiv (fadd left_jd right_jd) 2 in
      let left_diff := f left_jd in
      let mid_diff := f mid_jd in
      let right_diff := f right_jd in
      if efloat_ltb mid_diff (Fin tolerance) then mid_jd
      else if efloat_ltb left_diff right_diff then bisect f n' left_jd mid_jd
      else bisect f n' mid_jd right_jd
  end.

Definition find_exact_aspect_time
  (planet1_code planet2_code : Z) (target_angle start_jd search_days : Q) : Q :=
  bisect (angle_difference_from_target planet1_code planet2_code target_angle)
         100 start_jd (fadd start_jd search_days).

(** Number of loop iterations that [bisect] enters. *)
Fixpoint bisect_iterations (f : Q -> efloat) (n : nat) (left_jd right_jd : Q)
  : nat :=
  match n with
  | O => O
  | S n' =>
      let mid_jd := fdiv (fadd left_jd right_jd) 2 in
      if efloat_ltb (f mid_jd) (Fin tolerance) then 1%nat
      else if efloat_ltb (f left_jd) (f right_jd)
           then S (bisect_iterations f n' left_jd mid_jd)
           else S (bisect_iterations f n' mid_jd right_jd)
  end.


(** [mid_jd] for the interval [i]. *)
Definition midpoint (i : Q * Q) : Q := fdiv (fadd (fst i) (snd i)) 2.

(** The interval after one iteration that did not return. *)
Definition narrow (f : Q -> efloat) (i : Q * Q) : Q * Q :=
  if efloat_ltb (f (fst i)) (f (snd i))
  then (fst i, midpoint i) else (midpoint i, snd i).

(** The interval after [k] iterations, none of which returned. *)
Fixpoint interval (f : Q -> efloat) (k : nat) (i : Q * Q) : Q * Q :=
  match k with
  | O => i
  | S k' => interval f k' (narrow f i)
  end.


(** What a run of [n] iterations from the interval [i] does, in terms of
    the successive intervals: it leaves at iteration [k + 1], the first one
    whose midpoint error is below the tolerance, with that midpoint ... *)
Definition early (f : Q -> efloat) (n : nat) (i : Q * Q)
  (result : Q) (iterations : nat) : Prop :=
  exists k : nat,
    (k < n)%nat /\
    efloat_ltb (f (midpoint (interval f k i))) (Fin tolerance) = true /\
    (forall j, (j < k)%nat ->
       efloat_ltb (f (midpoint (interval f j i))) (Fin tolerance) = false) /\
    result = midpoint (interval f k i) /\
    iterations = S k.

(** ... or no midpoint error is below the tolerance, all [n] iterations
    run, and the midpoint of the last interval is returned. *)
Definition capped (f : Q -> efloat) (n : nat) (i : Q * Q)
  (result : Q) (iterations : nat) : Prop :=
  (forall j, (j < n)%nat ->
     efloat_ltb (f (midpoint (interval f j i))) (Fin tolerance) = false) /\
  result = midpoint (interval f n i) /\
  iterations = n.

(** The call [datetime(...)] of lines 222, 247 and 263, on the calendar
    components that [swe.jdut1_to_utc] gave for the Julian day [jd].  The
    file binds the name by [import datetime] (line 9): it is the module,
    and calling a module raises [TypeError]. *)
Definition datetime (jd : Q) : res unit := Raise TypeError.

(** The error re-measured by the scan at the refined instant (lines 255-259). *)
Definition remeasured_error (exact_angle target_angle : Q) : Q :=
  if Qeq_bool target_angle 180 then Qabs (exact_angle - 180)
  else if Qeq_bool target_angle 0 then Qmin exact_angle (360 - exact_angle)
  else Qabs (exact_angle - target_angle).

Definition acceptance : Q := 1 # 100.

(** Lines 250-259: the two positions at the refined instant, their short
    arc and the error measured again.  [angular_distance] subtracts its
    arguments, which raises when one of them is [None]. *)
Definition remeasure (code1 code2 : Z) (target_angle exact_jd : Q)
  : res (Q * Q * Q * Q) :=
  match calculate_position code1 exact_jd, calculate_position code2 exact_jd with
  | Some exact_pos1, Some exact_pos2 =>
      let exact_angle := angular_distance exact_pos1 exact_pos2 in
      Ok (exact_pos1, exact_pos2, exact_angle,
          remeasured_error exact_angle target_angle)
  | _, _ => Raise TypeError
  end.

(** Body of [for aspect_name, aspect_info in aspects.items()] (lines 236-286). *)
Definition check_aspect
  (p1 p2 : string) (code1 code2 : Z) (current_jd current_angle : Q)
  (found_aspects : list aspect_data) (item : string * aspect_info)
  : res (list aspect_data) :=
  let (aspect_name, aspect_info) := item in
  let target_angle := info_angle aspect_info in
  let orb := info_orb aspect_info in
  if is_aspect_within_orb current_angle target_angle orb then
    let exact := find_exact_aspect_time code1 code2 target_angle
                   (fsub current_jd (1 # 2)) 1 in
    if truthy exact then
      exact_dt <- datetime exact ;;
      measured <- remeasure code1 code2 target_angle exact ;;
      let '(exact_pos1, exact_pos2, exact_angle, angle_error) := measured in
      if Qle_bool angle_error acceptance then
        utc_dt <- datetime exact ;;
        Ok (found_aspects ++
            [mk_data p1 p2 aspect_name (info_abbrev aspect_info)
               (round6 exact_angle) (round6 exact_pos1) (round6 exact_pos2)
               exact (round6 angle_error)])
      else Ok found_aspects
    else Ok found_aspects
  else Ok found_aspects.

(** Body of [for planet1, planet2 in planet_pairs] (lines 224-286). *)
Definition check_pair
  (catalog : list (string * aspect_info)) (current_jd : Q)
  (found_aspects : list aspect_data) (pair : string * string)
  : res (list aspect_data) :=
  let (p1, p2) := pair in
  code1 <- lookup planets p1 ;;
  code2 <- lookup planets p2 ;;
  match calculate_position code1 current_jd,
        calculate_position code2 current_jd with
  | Some pos1, Some pos2 =>
      let current_angle := angular_distance pos1 pos2 in
      for_each (check_aspect p1 p2 code1 code2 current_jd current_angle)
               catalog found_aspects
  | _, _ => Ok found_aspects   (* [continue] *)
  end.

(** One turn of [while current_jd <= end_jd] up to the end of the loop
    over the pairs (lines 221-286). *)
Definition scan_instant
  (catalog : list (string * aspect_info)) (planet_pairs : list (string * string))
  (current_jd : Q) (found_aspects : list aspect_data)
  : res (list aspect_data) :=
  dt <- datetime current_jd ;;
  for_each (check_pair catalog current_jd) planet_pairs found_aspects.

(** The [while current_jd <= end_jd] loop (lines 220-293).  The progress
    percentage divides by [end_jd - start_jd]. *)
Fixpoint scan_loop
  (catalog : list (string * aspect_info)) (planet_pairs : list (string * string))
  (start_jd end_jd step_jd : Q) (fuel : nat)
  (current_jd : Q) (found_aspects : list aspect_data)
  : option (res (list aspect_data)) :=
  match fuel with
  | O => None
  | S fuel' =>
      if Qle_bool current_jd end_jd then
        match scan_instant catalog planet_pairs current_jd found_aspects with
        | Raise e => Some (Raise e)
        | Ok found_aspects' =>
            let current_jd' := fadd current_jd step_jd in
            if Qeq_bool (fsub end_jd start_jd) 0 then Some (Raise ZeroDivisionError)
            else scan_loop catalog planet_pairs start_jd end_jd step_jd fuel'
                           current_jd' found_aspects'
        end
      else Some (Ok found_aspects)
  end.

(** [scan_for_aspects], from the Julian days of its two dates. *)
Definition scan_for_aspects (start_jd end_jd step_hours : Q) (fuel : nat)
  : option (res (list aspect_data)) :=
  scan_loop aspects (pairs_of all_planets) start_jd end_jd (fdiv step_hours 24)
            fuel start_jd [].

(** The provider contract: a longitude, when there is one, is in [0, 360). *)
Definition longitudes_in_range : Prop :=
  forall (planet_code : Z) (jd lon : Q),
    calculate_position planet_code jd = Some lon -> 0 <= lon < 360.

End WithEphemeris.

End Scanner.

(** ** The [AspectCalculator] class of calculate_aspects.py (lines 334-637) *)

Module AspectCalculator.

(** The attributes of [self] that the methods below read. *)
Record calculator : Type := mk_calculator
  { self_planets : list string;         (* keys of [self.planets], in order *)
    self_aspects : list (string * Q);   (* items of [self.aspects], in order *)
    self_orb : Q;
    self_min_days_between_aspects : Q }.

(** [AspectCalculator()] after [__init__]: luminaries and slow planets. *)
Definition default_calculator : calculator :=
  mk_calculator
    ["Sun"; "Moon"; "Jupiter"; "Saturn"; "Uranus"; "Neptune"; "Pluto"]%string
    [("Conjunction", 0); ("Semisquare", 45); ("Sextile", 60); ("Square", 90);
     ("Trine", 120); ("Gann109", 109); ("Opposition", 180); ("Gann74", 74)]%string
    1 14.

Definition calculate_angle_between_planets (planet1_lon planet2_lon : Q) : Q * Q :=
  let diff := Qabs (planet1_lon - planet2_lon) in
  let short_arc := if Qle_bool diff 180 then diff else 360 - diff in
  let long_arc := if Qltb 180 diff then diff else 360 - diff in
  (short_arc, long_arc).

(** The test that [get_aspect_type] applies to one item of [self.aspects]. *)
Definition orb_test (orb short_arc long_arc : Q) (item : string * Q) : bool :=
  let (aspect_name, aspect_angle) := item in
  if String.eqb aspect_name "Gann74"
  then Qle_bool (Qabs (long_arc - (360 - aspect_angle))) orb
  else Qle_bool (Qabs (short_arc - aspect_angle)) orb.

(** The loop of [get_aspect_type] over the items of [self.aspects]. *)
Fixpoint get_aspect_type_loop
  (items : list (string * Q)) (orb short_arc long_arc : Q) : string :=
  match items with
  | [] => EmptyString
  | (aspect_name, aspect_angle) :: rest =>
      if String.eqb aspect_name "Gann74" then
        if Qle_bool (Qabs (long_arc - (360 - aspect_angle))) orb
        then aspect_name
        else get_aspect_type_loop rest orb short_arc long_arc
      else
        if Qle_bool (Qabs (short_arc - aspect_angle)) orb
        then aspect_name
        else get_aspect_type_loop rest orb short_arc long_arc
  end.

Definition get_aspect_type (self : calculator) (short_arc long_arc : Q) : string :=
  get_aspect_type_loop (self_aspects self) (self_orb self) short_arc long_arc.

(** One entry of the lists that the class passes around. *)
Record aspect : Type := mk_aspect
  { date : Q;
    planet1 : string;
    planet2 : string;
    aspect_name : string;     (* the ['aspect'] field *)
    angle : Q;
    planet1_lon : Q;
    planet2_lon : Q }.

(** [tuple(sorted([p1, p2]))]. *)
Definition sorted_pair (p1 p2 : string) : string * string :=
  if String.ltb p2 p1 then (p2, p1) else (p1, p2).

Definition aspect_key : Type := (string * string) * string.

Definition pair_eqb (a b : string * string) : bool :=
  String.eqb (fst a) (fst b) && String.eqb (snd a) (snd b).

Definition key_eqb (a b : aspect_key) : bool :=
  pair_eqb (fst a) (fst b) && String.eqb (snd a) (snd b).

Definition key_of (a : aspect) : aspect_key :=
  (sorted_pair (planet1 a) (planet2 a), aspect_name a).

Section WithPositions.

(** [planet.compute(date)] followed by [float(planet.hlon) * 180 / pi]. *)
Variable hlon_degrees : string -> Q -> Q.

Variable self : calculator.

(** Inner loop of [find_aspects_for_date]: [planet1] against the later names. *)
Definition aspects_of_pair (d : Q) (p1 p2 : string) : list aspect :=
  let lon1 := hlon_degrees p1 d in
  let lon2 := hlon_degrees p2 d in
  let (short_arc, long_arc) := calculate_angle_between_planets lon1 lon2 in
  let aspect_type := get_aspect_type self short_arc long_arc in
  if String.eqb aspect_type EmptyString then []
  else
    let angle_to_record :=
      if String.eqb aspect_type "Gann74" then long_arc else short_arc in
    [mk_aspect d p1 p2 aspect_type angle_to_record lon1 lon2].

Fixpoint aspects_of_names (d : Q) (names : list string) : list aspect :=
  match names with
  | [] => []
  | p1 :: rest =>
      flat_map (aspects_of_pair d p1) rest ++ aspects_of_names d rest
  end.

Definition find_aspects_for_date (d : Q) : list aspect :=
  aspects_of_names d (self_planets self).

(** *** deduplicate_aspects (lines 500-568) *)

(** [sorted(aspects, key=lambda x: x['date'])]: a stable sort. *)
Fixpoint insert_by_date (a : aspect) (l : list aspect) : list aspect :=
  match l with
  | [] => [a]
  | b :: l' =>
      if Qle_bool (date a) (date b) then a :: b :: l'
      else b :: insert_by_date a l'
  end.

Definition sorted_by_date (l : list aspect) : list aspect :=
  fold_right insert_by_date [] l.

(** An entry of [aspect_tracking]: the ['date'] and the ['angle']. *)
Definition tracking : Type := list (aspect_key * (Q * Q)).

Definition dedup_step (st : list aspect * tracking) (a : aspect)
  : res (list aspect * tracking) :=
  let (deduplicated, aspect_tracking) := st in
  let planet_pair := sorted_pair (planet1 a) (planet2 a) in
  let key := (planet_pair, aspect_name a) in
  let current_date := date a in
  decision <-
    match dict_get key_eqb aspect_tracking key with
    | Some (last_date, last_angle) =>
        let days_diff := current_date - last_date in
        if Qltb days_diff (self_min_days_between_aspects self) then
          target <- lookup (self_aspects self) (aspect_name a) ;;
          let last_angle_diff := Qabs (last_angle - target) in
          let current_angle_diff := Qabs (angle a - target) in
          if Qltb current_angle_diff (last_angle_diff - (1 # 10)) then
            Ok (true,
                filter (fun x =>
                          negb (pair_eqb (sorted_pair (planet1 x) (planet2 x))
                                         planet_pair
                                && String.eqb (aspect_name x) (aspect_name a)
                                && Qltb (Qabs (date x - last_date)) 1))
                       deduplicated)
          else Ok (false, deduplicated)
        else Ok (true, deduplicated)
    | None => Ok (true, deduplicated)
    end ;;
  let (should_include, deduplicated') := decision : bool * list aspect in
  if should_include
  then Ok (deduplicated' ++ [a],
           dict_set key_eqb aspect_tracking key (current_date, angle a))
  else Ok (deduplicated', aspect_tracking).

Definition deduplicate_aspects (aspects : list aspect) : res (list aspect) :=
  match aspects with
  | [] => Ok aspects
  | _ =>
      st <- for_each dedup_step (sorted_by_date aspects) ([], []) ;;
      Ok (fst st)
  end.

(** *** find_exact_aspect_dates (lines 570-637) *)

Record window : Type := mk_window
  { best_precision : Q;
    best_aspect : aspect;
    last_seen : Q }.

Definition windows : Type := list (aspect_key * window).

Definition window_days : Q := 30.

(** Body of [for aspect in aspects] (lines 587-622): the state is
    [aspect_windows] and [exact_aspects]. *)
Definition track (current_date : Q) (st : windows * list aspect) (a : aspect)
  : res (windows * list aspect) :=
  let (aspect_windows, exact_aspects) := st in
  let key := key_of a in
  target_angle <- lookup (self_aspects self) (aspect_name a) ;;
  let angle_precision := Qabs (angle a - target_angle) in
  match dict_get key_eqb aspect_windows key with
  | Some w =>
      if Qltb angle_precision (best_precision w) then
        Ok (dict_set key_eqb aspect_windows key
              (mk_window angle_precision a current_date), exact_aspects)
      else if Qltb window_days (current_date - last_seen w) then
        Ok (dict_set key_eqb aspect_windows key
              (mk_window angle_precision a current_date),
            exact_aspects ++ [best_aspect w])
      else Ok st
  | None =>
      Ok (dict_set key_eqb aspect_windows key
            (mk_window angle_precision a current_date), exact_aspects)
  end.

(** The [angle_precision] of a candidate whose aspect has angle [target]. *)
Definition angle_precision (target : Q) (a : aspect) : Q :=
  Qabs (angle a - target).

(** The window that a candidate opens, or that it takes over. *)
Definition opened (target : Q) (a : aspect) : window :=
  mk_window (angle_precision target a) a (date a).

(** Lines 631-637: the open windows are appended, in the order of
    [aspect_windows.values()], and the list goes through
    [deduplicate_aspects]. *)
Definition flush (st : windows * list aspect) : res (list aspect) :=
  deduplicate_aspects (snd st ++ map best_aspect (dict_values (fst st))).

(** The [while current_date <= end] loop (lines 584-629). *)
Fixpoint date_loop (end_date step : Q) (fuel : nat) (current_date : Q)
  (st : windows * list aspect) : option (res (windows * list aspect)) :=
  match fuel with
  | O => None
  | S fuel' =>
      if Qle_bool current_date end_date then
        match for_each (track current_date) (find_aspects_for_date current_date) st with
        | Raise e => Some (Raise e)
        | Ok st' => date_loop end_date step fuel' (current_date + step) st'
        end
      else Some (Ok st)
  end.

Definition find_exact_aspect_dates (start end_date precision_hours : Q) (fuel : nat)
  : option (res (list aspect)) :=
  match date_loop end_date (precision_hours / 24) fuel start ([], []) with
  | None => None
  | Some (Raise e) => Some (Raise e)
  | Some (Ok st) => Some (flush st)
  end.

(** The window stage fed with a sequence of candidates, each at its own
    date, followed by the flush. *)
Definition feed (candidates : list aspect) : res (windows * list aspect) :=
  for_each (fun st a => track (date a) st a) candidates ([], []).

Definition committed (candidates : list aspect) : res (list aspect) :=
  st <- feed candidates ;; flush st.

(** [scan_date_range] (lines 689-709): the [while current_date <= end]
    loop that collects the aspects of every visited date. *)
Fixpoint scan_date_range_loop (end_date step_days : Q) (fuel : nat)
  (current_date : Q) (all_aspects : list aspect) : option (list aspect) :=
  match fuel with
  | O => None
  | S fuel' =>
      if Qle_bool current_date end_date then
        scan_date_range_loop end_date step_days fuel' (current_date + step_days)
          (all_aspects ++ find_aspects_for_date current_date)
      else Some all_aspects
  end.

Definition scan_date_range (start end_date step_days : Q) (fuel : nat)
  : option (list aspect) :=
  scan_date_range_loop end_date step_days fuel start [].

(** An open window as the loop of [find_exact_aspect_dates] keeps it: it is
    filed under the key of its best candidate, its precision is that of the
    best candidate, and its [last_seen] is the date of the best candidate. *)
Definition window_of_best (candidates : list aspect)
  (entry : aspect_key * window) : Prop :=
  let w := snd entry in
  key_of (best_aspect w) = fst entry /\
  last_seen w = date (best_aspect w) /\
  In (best_aspect w) candidates /\
  exists target : Q,
    lookup (self_aspects self) (aspect_name (best_aspect w)) = Ok target /\
    best_precision w = angle_precision target (best_aspect w).

End WithPositions.

(** [_update_active_planets] (lines 385-399): the keys of [self.planets]
    for the three toggles, in insertion order. *)
Definition luminaries : list string := ["Sun"; "Moon"]%string.
Definition fast_planets : list string := ["Mercury"; "Venus"; "Mars"]%string.
Definition slow_planets : list string :=
  ["Jupiter"; "Saturn"; "Uranus"; "Neptune"; "Pluto"]%string.

Definition active_planets (use_luminaries use_fast_planets use_slow_planets : bool)
  : list string :=
  (if use_luminaries then luminaries else [])
  ++ (if use_fast_planets then fast_planets else [])
  ++ (if use_slow_planets then slow_planets else []).

(** [set_planet_groups] (lines 401-415): the updated calculator and the
    returned [len(self.planets)]. *)
Definition set_planet_groups (self : calculator)
  (use_luminaries use_fast_planets use_slow_planets : bool) : calculator * nat :=
  let planets := active_planets use_luminaries use_fast_planets use_slow_planets in
  (mk_calculator planets (self_aspects self) (self_orb self)
     (self_min_days_between_aspects self),
   List.length planets).

(** Two entries of one key, the second at least [min_days] after the first. *)
Definition spaced (min_days : Q) (x y : aspect) : Prop :=
  key_of x = key_of y -> min_days <= date y - date x.

Definition not_later (x y : aspect) : Prop := date x <= date y.

(** What the loop of [deduplicate_aspects] keeps true of [deduplicated]
    and [aspect_tracking] while the entries [rest] are still to come: kept
    entries of one key are spaced; an untracked key has no kept entry; the
    tracked date of a key is not before its kept entries, each of which is
    within a day of it or [min_days] before it; kept entries and tracked
    dates are not after what is to come; the kept entries are in date order. *)
Definition dedup_invariant (min_days : Q) (rest : list aspect)
  (st : list aspect * list (aspect_key * (Q * Q))) : Prop :=
  ForallOrdPairs (spaced min_days) (fst st) /\
  (forall k, dict_get key_eqb (snd st) k = None ->
     forall x, In x (fst st) -> key_of x <> k) /\
  (forall k d ang, dict_get key_eqb (snd st) k = Some (d, ang) ->
     forall x, In x (fst st) -> key_of x = k ->
       date x <= d /\ (Qabs (date x - d) < 1 \/ min_days <= d - date x)) /\
  (forall x y, In x (fst st) -> In y rest -> date x <= date y) /\
  (forall k d ang, dict_get key_eqb (snd st) k = Some (d, ang) ->
     forall y, In y rest -> d <= date y) /\
  StronglySorted not_later (fst st).

End AspectCalculator.

(** ** The [AspectCalculator] class of custom_gann_aspect_finder.py *)

Module CustomGann.

Definition standard_aspects : list (string * Q) :=
  [("Conjunction", 0); ("Semisquare", 45); ("Sextile", 60); ("Square", 90);
   ("Trine", 120); ("Opposition", 180)]%string.

(** First loop of [get_aspect_type]: the short arc against the standard
    aspects. *)
Fixpoint first_on_arc (items : list (string * Q)) (orb arc : Q) : option string :=
  match items with
  | [] => None
  | (aspect_name, aspect_angle) :: rest =>
      if Qle_bool (Qabs (arc - aspect_angle)) orb then Some aspect_name
      else first_on_arc rest orb arc
  end.

(** [get_aspect_type]: [standard] and [gann] are the items of
    [self.standard_aspects] and [self.gann_angles]. *)
Definition get_aspect_type
  (standard gann : list (string * Q)) (orb short_arc long_arc : Q) : string :=
  match first_on_arc standard orb short_arc with
  | Some aspect_name => aspect_name
  | None =>
      match first_on_arc gann orb long_arc with
      | Some aspect_name => aspect_name
      | None => EmptyString
      end
  end.

(** The catalog [self.aspects = {**standard_aspects, **gann_angles}] with
    the flag that tells which arc a definition is tested on. *)
Definition catalog (standard gann : list (string * Q)) : list (bool * (string * Q)) :=
  map (pair false) standard ++ map (pair true) gann.

Definition arc_test (orb short_arc long_arc : Q) (d : bool * (string * Q)) : bool :=
  Qle_bool (Qabs ((if fst d then long_arc else short_arc) - snd (snd d))) orb.

Definition calculate_angle_between_planets (planet1_lon planet2_lon : Q) : Q * Q :=
  let diff := Qabs (planet1_lon - planet2_lon) in
  let short_arc := if Qle_bool diff 180 then diff else 360 - diff in
  let long_arc := if Qltb 180 diff then diff else 360 - diff in
  (short_arc, long_arc).

(** The key [f'Gann{angle}'] of an integer angle. *)
Definition gann_name (angle : Z) : string := ("Gann" ++ str angle)%string.

(** [self.gann_angles] after [__init__] or [set_gann_angles]: the loop
    [for angle in angles: self.gann_angles[f'Gann{angle}'] = angle]. *)
Definition gann_angles_of (angles : list Z) : list (string * Q) :=
  fold_left (fun d angle => dict_set String.eqb d (gann_name angle) (inject_Z angle))
            angles [].

(** [{**a, **b}]. *)
Definition merged (a b : list (string * Q)) : list (string * Q) :=
  fold_left (fun d item => dict_set String.eqb d (fst item) (snd item)) b a.

(** [self.aspects] for the given Gann angles. *)
Definition aspects_of (angles : list Z) : list (string * Q) :=
  merged standard_aspects (gann_angles_of angles).

End CustomGann.

(** ** major/interactive_gann_aspect_calculator.py

    Its [planets], [angular_distance] and [is_aspect_within_orb] are those
    of [Scanner] and [AngleMath]. *)

Module Interactive.

Import AngleMath.

(** [calculate_position] (lines 30-33) has no [try]: the outer [None] is an
    exception of the ephemeris, the inner one the value [None]. *)
Definition calculate_position (calc_ut : Z -> Q -> Scanner.swe_outcome)
  (planet_code : Z) (jd : Q) : option (option Q) :=
  match calc_ut planet_code jd with
  | Scanner.SweRaises => None
  | Scanner.SweReturns [] => Some None
  | Scanner.SweReturns (lon :: _) => Some (Some lon)
  end.

Definition is_aspect_within_any (angle : Q) (target_angles : list Q) (orb : Q)
  : bool :=
  existsb (fun t => is_aspect_within_orb angle t orb) target_angles.

(** [round(x, 4)]. *)
Definition round4 (x : Q) : Q :=
  inject_Z (round_half_even (x * 10000)) / 10000.

(** One row of [found_aspects], without the formatted date and time. *)
Record row : Type := mk_row
  { planet1 : string;
    planet2 : string;
    angle : Q }.

(** An instant that the scan visits: [start_jd] plus a whole number of
    steps, not after [end_jd]. *)
Definition scanned (start_jd end_jd step_jd jd : Q) : Prop :=
  exists k : nat,
    jd == start_jd + inject_Z (Z.of_nat k) * step_jd /\ jd <= end_jd.

Section WithEphemeris.

Variable calc_ut : Z -> Q -> Scanner.swe_outcome.
Variable gann_angles : list Q.
Variable orb : Q.

(** Body of [for planet1, planet2 in planet_pairs] (lines 63-83); [None]
    is the [except] branch, which makes the function return [[]]. *)
Definition check_pair (current_jd : Q) (found_aspects : list row)
  (planet_pair : string * string) : option (list row) :=
  let (p1, p2) := planet_pair in
  match lookup Scanner.planets p1 with
  | Raise _ => None
  | Ok code1 =>
      match calculate_position calc_ut code1 current_jd with
      | None => None
      | Some pos1 =>
          match lookup Scanner.planets p2 with
          | Raise _ => None
          | Ok code2 =>
              match calculate_position calc_ut code2 current_jd with
              | None => None
              | Some pos2 =>
                  match pos1, pos2 with
                  | Some lon1, Some lon2 =>
                      let angle := angular_distance lon1 lon2 in
                      if is_aspect_within_any angle gann_angles orb
                      then Some (found_aspects ++ [mk_row p1 p2 (round4 angle)])
                      else Some found_aspects
                  | _, _ => Some found_aspects   (* [continue] *)
                  end
              end
          end
      end
  end.

Fixpoint check_pairs (current_jd : Q) (pairs : list (string * string))
  (found_aspects : list row) : option (list row) :=
  match pairs with
  | [] => Some found_aspects
  | planet_pair :: pairs' =>
      match check_pair current_jd found_aspects planet_pair with
      | None => None
      | Some found_aspects' => check_pairs current_jd pairs' found_aspects'
      end
  end.

(** The [while current_jd <= end_jd] loop (lines 60-84); the outer [None]
    is the fuel running out. *)
Fixpoint gann_loop (end_jd step_jd : Q) (fuel : nat) (current_jd : Q)
  (found_aspects : list row) : option (list row) :=
  match fuel with
  | O => None
  | S fuel' =>
      if Qle_bool current_jd end_jd then
        match check_pairs current_jd (Scanner.pairs_of Scanner.all_planets)
                found_aspects with
        | None => Some []     (* [except Exception: return []] *)
        | Some found_aspects' =>
            gann_loop end_jd step_jd fuel' (current_jd + step_jd) found_aspects'
        end
      else Some found_aspects
  end.

(** [find_gann_aspects], from the Julian days of its two dates. *)
Definition find_gann_aspects (start_jd end_jd step_hours : Q) (fuel : nat)
  : option (list row) :=
  gann_loop end_jd (step_hours / 24) fuel start_jd [].

(** A row for a pair of the scan whose angle is the rounded short arc of
    two longitudes that the ephemeris gave at a visited instant, the short
    arc being within the orb of one of the requested angles. *)
Definition justified (start_jd end_jd step_jd : Q) (r : row) : Prop :=
  In (planet1 r, planet2 r) (Scanner.pairs_of Scanner.all_planets) /\
  exists (jd lon1 lon2 target : Q) (code1 code2 : Z),
    scanned start_jd end_jd step_jd jd /\
    lookup Scanner.planets (planet1 r) = Ok code1 /\
    lookup Scanner.planets (planet2 r) = Ok code2 /\
    calculate_position calc_ut code1 jd = Some (Some lon1) /\
    calculate_position calc_ut code2 jd = Some (Some lon2) /\
    In target gann_angles /\
    is_aspect_within_orb (angular_distance lon1 lon2) target orb = true /\
    angle r = round4 (angular_distance lon1 lon2).

End WithEphemeris.

End Interactive.

(** ** Position providers used in the examples *)

Module Stubs.

Import Scanner.

(** The ephemeris never answers. *)
Definition silent : Z -> Q -> swe_outcome := fun _ _ => SweRaises.

(** Body 0 stays at 0 degrees; body 1 is at 90.0625 degrees at Julian
    day 0, at 90.125 degrees at Julian day 1/2 and at 95 degrees at every
    other instant.  All these numbers are doubles. *)
Definition lure (planet_code : Z) (jd : Q) : swe_outcome :=
  if (planet_code =? 0)%Z then SweReturns [0]
  else if (planet_code =? 1)%Z then
    if Qeq_bool jd 0 then SweReturns [1441 # 16]
    else if Qeq_bool jd (1 # 2) then SweReturns [721 # 8]
    else SweReturns [95]
  else SweRaises.

(** Sun at 10 degrees and Moon at 100 degrees at all times; the other
    bodies are not available. *)
Definition square : Z -> Q -> swe_outcome :=
  fun planet_code _ =>
    if (planet_code =? 0)%Z then SweReturns [10]
    else if (planet_code =? 1)%Z then SweReturns [100]
    else SweRaises.

(** Sun at 0 degrees and Moon at 0.3 degrees, available at Julian day
    2460000 only; the other bodies are not available. *)
Definition only_at_noon (planet_code : Z) (jd : Q) : swe_outcome :=
  if Qeq_bool jd 2460000 then
    if (planet_code =? 0)%Z then SweReturns [0]
    else if (planet_code =? 1)%Z then SweReturns [3 # 10]
    else SweRaises
  else SweRaises.

(** Sun at 0 degrees and Moon at 0.3 degrees, available only at 13:00 of
    Julian day 2460000, that is at the double [2460000 + 1/24]; the other
    bodies are not available. *)
Definition one_pm : Q := fadd 2460000 (fdiv 1 24).

Definition only_at_one_pm (planet_code : Z) (jd : Q) : swe_outcome :=
  if Qeq_bool jd one_pm then
    if (planet_code =? 0)%Z then SweReturns [0]
    else if (planet_code =? 1)%Z then SweReturns [3 # 10]
    else SweRaises
  else SweRaises.

(** Heliocentric longitudes for the slow planets: Jupiter stays at 0
    degrees; Saturn is at 0.5 degrees on day 0, at 0.2 degrees on day 100
    and at 30 degrees otherwise; Uranus, Neptune and Pluto stay at 200, 215
    and 235 degrees. *)
Definition two_passes (name : string) (d : Q) : Q :=
  if String.eqb name "Jupiter" then 0
  else if String.eqb name "Saturn" then
    if Qeq_bool d 0 then 1 # 2
    else if Qeq_bool d 100 then 2 # 10
    else 30
  else if String.eqb name "Uranus" then 200
  else if String.eqb name "Neptune" then 215
  else 235.

(** The calculator after [set_planet_groups(False, False, True)]. *)
Definition slow_planets_calculator : AspectCalculator.calculator :=
  AspectCalculator.mk_calculator
    ["Jupiter"; "Saturn"; "Uranus"; "Neptune"; "Pluto"]%string
    (AspectCalculator.self_aspects AspectCalculator.default_calculator) 1 14.

(** Two Jupiter-Saturn conjunctions 100 days apart, the later one closer. *)
Definition first_pass : AspectCalculator.aspect :=
  AspectCalculator.mk_aspect 0 "Jupiter" "Saturn" "Conjunction" (1 # 2) 0 (1 # 2).

Definition second_pass : AspectCalculator.aspect :=
  AspectCalculator.mk_aspect 100 "Jupiter" "Saturn" "Conjunction" (2 # 10) 0 (2 # 10).

(** Heliocentric longitudes with the Moon 74 degrees from the Sun and
    the slow planets out of the way. *)
Definition gann74_sky (name : string) (d : Q) : Q :=
  if String.eqb name "Sun" then 0
  else if String.eqb name "Moon" then 74
  else if String.eqb name "Jupiter" then 200
  else if String.eqb name "Saturn" then 215
  else if String.eqb name "Uranus" then 235
  else if String.eqb name "Neptune" then 250
  else 270.

(** The calculator after [set_planet_groups(True, False, False)]. *)
Definition luminaries_calculator : AspectCalculator.calculator :=
  AspectCalculator.mk_calculator
    ["Sun"; "Moon"]%string
    (AspectCalculator.self_aspects AspectCalculator.default_calculator) 1 14.

(** Heliocentric longitudes with the Sun at 0 degrees and the Moon at
    74.75 degrees on day 0, at 74 degrees on day 1 and at 30 degrees
    otherwise. *)
Definition gann74_pass (name : string) (d : Q) : Q :=
  if String.eqb name "Sun" then 0
  else if Qeq_bool d 0 then 299 # 4
  else if Qeq_bool d 1 then 74
  else 30.

(** The two Gann74 candidates of that sky: long arcs of 285.25 and of 286
    degrees, a day apart. *)
Definition near_pass : AspectCalculator.aspect :=
  AspectCalculator.mk_aspect 0 "Sun" "Moon" "Gann74" (1141 # 4) 0 (299 # 4).

Definition exact_pass : AspectCalculator.aspect :=
  AspectCalculator.mk_aspect 1 "Sun" "Moon" "Gann74" 286 0 74.

End Stubs.

(** ** Providers for the interactive calculator *)

Module InteractiveStubs.

(** Sun at 10 and Moon at 100 degrees; the ephemeris fails for Pluto from
    Julian day 2 on; the other bodies give no longitude. *)
Definition pluto_fails (planet_code : Z) (jd : Q) : Scanner.swe_outcome :=
  if (planet_code =? 0)%Z then Scanner.SweReturns [10]
  else if (planet_code =? 1)%Z then Scanner.SweReturns [100]
  else if (planet_code =? 9)%Z && Qle_bool 2 jd then Scanner.SweRaises
  else Scanner.SweReturns [].

End InteractiveStubs.

(** ** Specification vocabulary *)

Module Spec.

(** [r] is the name of the first entry of [catalog] that passes [test], or
    the empty string when no entry passes. *)
Definition first_match {D : Type} (test : D -> bool) (name : D -> string)
  (catalog : list D) (r : string) : Prop :=
  (exists pre d post,
      catalog = pre ++ d :: post /\ test d = true /\ name d = r /\
      Forall (fun x => test x = false) pre)
  \/ (Forall (fun x => test x = false) catalog /\ r = EmptyString).

End Spec.

(** * Properties *)

(** ** Comparisons on rationals *)

Lemma Qltb_lt (x y : Q) : Qltb x y = true <-> x < y.
Proof.
  unfold Qltb. rewrite negb_true_iff, <- not_true_iff_false, Qle_bool_iff.
  split; [apply Qnot_le_lt | apply Qlt_not_le].
Qed.

Lemma Qltb_ge (x y : Q) : Qltb x y = false <-> y <= x.
Proof.
  unfold Qltb. rewrite negb_false_iff. apply Qle_bool_iff.
Qed.

Lemma Qle_bool_gt (x y : Q) : Qle_bool x y = false <-> y < x.
Proof.
  rewrite <- not_true_iff_false, Qle_bool_iff.
  split; [apply Qnot_le_lt | apply Qlt_not_le].
Qed.

Ltac qcases :=
  repeat match goal with
    | |- context [Qltb ?a ?b] =>
        let E := fresh "E" in
        destruct (Qltb a b) eqn:E;
        [apply Qltb_lt in E | apply Qltb_ge in E]
    | |- context [Qle_bool ?a ?b] =>
        let E := fresh "E" in
        destruct (Qle_bool a b) eqn:E;
        [apply Qle_bool_iff in E | apply Qle_bool_gt in E]
    end.

(** ** Doubles *)

Module FloatFacts.

Lemma pow2_pos (z : Z) : 0 < 2 ^ z.
Proof. apply Qpower_0_lt. reflexivity. Qed.

Lemma pow2_add (a b : Z) : 2 ^ (a + b) == 2 ^ a * 2 ^ b.
Proof. apply Qpower_plus. discriminate. Qed.

Lemma pow2_succ (z : Z) : 2 ^ (z + 1) == 2 * 2 ^ z.
Proof. rewrite pow2_add. change (2 ^ 1) with 2. ring. Qed.

Lemma pow2_lt (a b : Z) : (a < b)%Z -> 2 ^ a < 2 ^ b.
Proof. intros H. apply Qpower_lt_compat_l; [exact H | reflexivity]. Qed.

Lemma pow2_le (a b : Z) : (a <= b)%Z -> 2 ^ a <= 2 ^ b.
Proof. intros H. apply Qpower_le_compat_l; [exact H | discriminate]. Qed.

Lemma pow2_lt_inv (a b : Z) : 2 ^ a < 2 ^ b -> (a < b)%Z.
Proof. intros H. apply (Qpower_lt_compat_l_inv 2); [exact H | reflexivity]. Qed.

Lemma pow2_Z (n : Z) : (0 <= n)%Z -> inject_Z (2 ^ n) == 2 ^ n.
Proof. intros H. now rewrite Zpower_Qpower. Qed.

Lemma ilog2_spec (x : Q) : 0 < x -> 2 ^ ilog2 x <= x < 2 ^ (ilog2 x + 1).
Proof.
  intros Hx. destruct x as [n d].
  assert (Hn : (0 < n)%Z).
  { unfold Qlt in Hx. cbn in Hx. lia. }
  assert (X : n # d == inject_Z n / inject_Z (Zpos d)) by apply Qmake_Qdiv.
  assert (D : 0 < inject_Z (Zpos d)) by reflexivity.
  pose proof (Z.log2_spec n Hn) as [Na Nb].
  pose proof (Z.log2_spec (Zpos d) eq_refl) as [Da Db].
  pose proof (Z.log2_nonneg n) as An.
  pose proof (Z.log2_nonneg (Zpos d)) as Ad.
  rewrite Zle_Qle, pow2_Z in Na, Da by assumption.
  rewrite Zlt_Qlt, pow2_Z in Nb, Db by lia.
  unfold Z.succ in Nb, Db.
  set (a := Z.log2 n) in *. set (b := Z.log2 (Zpos d)) in *.
  assert (Upper : n # d < 2 ^ (a - b + 1)).
  { rewrite X. apply Qlt_shift_div_r; [exact D |].
    eapply Qlt_le_trans; [exact Nb |].
    replace (a + 1)%Z with ((a - b + 1) + b)%Z by lia. rewrite pow2_add.
    apply Qmult_le_l; [apply pow2_pos | exact Da]. }
  assert (Lower : 2 ^ (a - b - 1) < n # d).
  { rewrite X. apply Qlt_shift_div_l; [exact D |].
    eapply Qlt_le_trans; [| exact Na].
    replace a with ((a - b - 1) + (b + 1))%Z at 2 by lia. rewrite pow2_add.
    apply Qmult_lt_l; [apply pow2_pos | exact Db]. }
  unfold ilog2. cbn [Qnum Qden]. fold a b.
  destruct (Qle_bool (2 ^ (a - b)) (n # d)) eqn:E.
  - apply Qle_bool_iff in E. split; [exact E | exact Upper].
  - assert (E' : n # d < 2 ^ (a - b)).
    { apply Qnot_le_lt. intros H. apply Qle_bool_iff in H. congruence. }
    replace (a - b - 1 + 1)%Z with (a - b)%Z by lia.
    split; [apply Qlt_le_weak; exact Lower | exact E'].
Qed.

Lemma ilog2_unique (x : Q) (e : Z) :
  2 ^ e <= x < 2 ^ (e + 1) -> ilog2 x = e.
Proof.
  intros [L U].
  assert (Hx : 0 < x) by (eapply Qlt_le_trans; [apply (pow2_pos e) | exact L]).
  destruct (ilog2_spec x Hx) as [L' U'].
  assert (A : (e < ilog2 x + 1)%Z).
  { apply pow2_lt_inv. eapply Qle_lt_trans; [exact L | exact U']. }
  assert (B : (ilog2 x < e + 1)%Z).
  { apply pow2_lt_inv. eapply Qle_lt_trans; [exact L' | exact U]. }
  lia.
Qed.

Lemma round_half_even_mono (y y' : Q) :
  y <= y' -> (round_half_even y <= round_half_even y')%Z.
Proof.
  intros H. pose proof (Qfloor_resp_le y y' H) as F.
  pose proof (Qfloor_le y) as L. pose proof (Qlt_floor y) as U.
  pose proof (Qfloor_le y') as L'. pose proof (Qlt_floor y') as U'.
  unfold round_half_even.
  destruct (Z.eq_dec (Qfloor y) (Qfloor y')) as [E | NE].
  - rewrite <- E in *.
    destruct (Qcompare_spec (y - inject_Z (Qfloor y)) (1 # 2));
      destruct (Qcompare_spec (y' - inject_Z (Qfloor y)) (1 # 2));
      destruct (Z.even (Qfloor y)); try lia; exfalso; lra.
  - destruct (Qcompare (y - inject_Z (Qfloor y)) (1 # 2));
      destruct (Qcompare (y' - inject_Z (Qfloor y')) (1 # 2));
      destruct (Z.even (Qfloor y)); destruct (Z.even (Qfloor y')); lia.
Qed.

Lemma round_half_even_Z (n : Z) : round_half_even (inject_Z n) = n.
Proof.
  unfold round_half_even. rewrite Qfloor_Z.
  destruct (Qcompare_spec (inject_Z n - inject_Z n) (1 # 2)) as [H | H | H];
    [exfalso; lra | reflexivity | exfalso; lra].
Qed.

Lemma round_half_even_wd (y y' : Q) :
  y == y' -> round_half_even y = round_half_even y'.
Proof.
  intros H. apply Z.le_antisymm; apply round_half_even_mono; rewrite H; apply Qle_refl.
Qed.

Lemma round_half_even_of_Z (y : Q) (n : Z) :
  y == inject_Z n -> round_half_even y = n.
Proof.
  intros H. rewrite (round_half_even_wd _ _ H). apply round_half_even_Z.
Qed.

Lemma ulp_scale (k : Z) : 2 ^ (k + 52) == inject_Z (2 ^ 52) * 2 ^ k /\
                          2 ^ (k + 53) == inject_Z (2 ^ 53) * 2 ^ k.
Proof.
  split; rewrite pow2_add, pow2_Z by lia; ring.
Qed.

(** A positive number with at most 53 significant bits is its own nearest. *)
Lemma nearest_exact (m k : Z) :
  (2 ^ 52 <= m <= 2 ^ 53)%Z ->
  nearest (inject_Z m * 2 ^ k) == inject_Z m * 2 ^ k.
Proof.
  intros [Lo Hi].
  pose proof (pow2_pos k) as Pk.
  destruct (ulp_scale k) as [S52 S53].
  destruct (Z.eq_dec m (2 ^ 53)) as [-> | Ne].
  - assert (E : ilog2 (inject_Z (2 ^ 53) * 2 ^ k) = (k + 53)%Z).
    { apply ilog2_unique. rewrite S53. split; [apply Qle_refl |].
      replace (k + 53 + 1)%Z with ((k + 53) + 1)%Z by lia.
      rewrite pow2_succ, S53.
      assert (0 < inject_Z (2 ^ 53) * 2 ^ k).
      { apply Qmult_lt_0_compat; [reflexivity | exact Pk]. }
      lra. }
    unfold nearest. rewrite E.
    replace (k + 53 - 52)%Z with (k + 1)%Z by lia.
    rewrite (round_half_even_of_Z _ (2 ^ 52)).
    + rewrite pow2_succ. change (inject_Z (2 ^ 53)) with (2 * inject_Z (2 ^ 52)).
      ring.
    + rewrite pow2_succ. change (inject_Z (2 ^ 53)) with (2 * inject_Z (2 ^ 52)).
      field. intros Z0. rewrite Z0 in Pk. now apply (Qlt_irrefl 0).
  - assert (Hm : (m < 2 ^ 53)%Z) by lia.
    assert (E : ilog2 (inject_Z m * 2 ^ k) = (k + 52)%Z).
    { apply ilog2_unique. replace (k + 52 + 1)%Z with (k + 53)%Z by lia.
      rewrite S52, S53. split.
      - apply Qmult_le_r; [exact Pk |]. now rewrite <- Zle_Qle.
      - apply Qmult_lt_r; [exact Pk |]. now rewrite <- Zlt_Qlt. }
    unfold nearest. rewrite E.
    replace (k + 52 - 52)%Z with k by lia.
    rewrite (round_half_even_of_Z _ m); [reflexivity |].
    field. intros Z0. rewrite Z0 in Pk. now apply (Qlt_irrefl 0).
Qed.

(** The significand that [nearest] picks has 53 bits, or is [2^53]. *)
Lemma nearest_significand (x : Q) :
  0 < x ->
  (2 ^ 52 <= round_half_even (x / 2 ^ (ilog2 x - 52)) <= 2 ^ 53)%Z.
Proof.
  intros Hx. destruct (ilog2_spec x Hx) as [L U].
  pose proof (pow2_pos (ilog2 x - 52)) as Pu.
  destruct (ulp_scale (ilog2 x - 52)) as [S52 S53].
  replace (ilog2 x - 52 + 52)%Z with (ilog2 x) in S52 by lia.
  replace (ilog2 x - 52 + 53)%Z with (ilog2 x + 1)%Z in S53 by lia.
  rewrite S52 in L. rewrite S53 in U.
  split.
  - rewrite <- (round_half_even_Z (2 ^ 52)) at 1. apply round_half_even_mono.
    apply Qle_shift_div_l; [exact Pu | exact L].
  - rewrite <- (round_half_even_Z (2 ^ 53)) at 1. apply round_half_even_mono.
    apply Qle_shift_div_r; [exact Pu | apply Qlt_le_weak; exact U].
Qed.

Lemma nearest_bounds (x : Q) :
  0 < x -> 2 ^ ilog2 x <= nearest x <= 2 ^ (ilog2 x + 1).
Proof.
  intros Hx. destruct (nearest_significand x Hx) as [Lo Hi].
  pose proof (pow2_pos (ilog2 x - 52)) as Pu.
  destruct (ulp_scale (ilog2 x - 52)) as [S52 S53].
  replace (ilog2 x - 52 + 52)%Z with (ilog2 x) in S52 by lia.
  replace (ilog2 x - 52 + 53)%Z with (ilog2 x + 1)%Z in S53 by lia.
  rewrite S52, S53. unfold nearest. split.
  - apply Qmult_le_r; [exact Pu |]. now rewrite <- Zle_Qle.
  - apply Qmult_le_r; [exact Pu |]. now rewrite <- Zle_Qle.
Qed.

Lemma nearest_pos (x : Q) : 0 < x -> 0 < nearest x.
Proof.
  intros Hx. eapply Qlt_le_trans; [apply (pow2_pos (ilog2 x)) |].
  now apply nearest_bounds.
Qed.

Lemma nearest_mono (x y : Q) : 0 < x -> x <= y -> nearest x <= nearest y.
Proof.
  intros Hx Hxy.
  assert (Hy : 0 < y) by lra.
  destruct (ilog2_spec x Hx) as [Lx Ux]. destruct (ilog2_spec y Hy) as [Ly Uy].
  assert (Le : (ilog2 x <= ilog2 y)%Z).
  { apply Z.lt_succ_r. apply pow2_lt_inv. unfold Z.succ. lra. }
  destruct (Z.eq_dec (ilog2 x) (ilog2 y)) as [E | Ne].
  - unfold nearest. rewrite E.
    pose proof (pow2_pos (ilog2 y - 52)) as Pu.
    apply Qmult_le_r; [exact Pu |]. rewrite <- Zle_Qle.
    apply round_half_even_mono.
    apply Qmult_le_r; [now apply Qinv_lt_0_compat | exact Hxy].
  - destruct (nearest_bounds x Hx) as [_ B]. destruct (nearest_bounds y Hy) as [B' _].
    assert (P : 2 ^ (ilog2 x + 1) <= 2 ^ ilog2 y) by (apply pow2_le; lia).
    lra.
Qed.

Lemma nearest_wd (x y : Q) : 0 < x -> x == y -> nearest x == nearest y.
Proof.
  intros Hx E. apply Qle_antisym; apply nearest_mono; lra.
Qed.

Lemma nearest_idempotent (x : Q) : 0 < x -> nearest (nearest x) == nearest x.
Proof.
  intros Hx. unfold nearest at 2 3. apply nearest_exact.
  now apply nearest_significand.
Qed.

Lemma nearest_double (x : Q) : 0 < x -> nearest (2 * x) == 2 * nearest x.
Proof.
  intros Hx. destruct (ilog2_spec x Hx) as [L U].
  assert (E : ilog2 (2 * x) = (ilog2 x + 1)%Z).
  { apply ilog2_unique. rewrite !pow2_succ in *. split; lra. }
  unfold nearest. rewrite E.
  replace (ilog2 x + 1 - 52)%Z with ((ilog2 x - 52) + 1)%Z by lia.
  pose proof (pow2_pos (ilog2 x - 52)) as Pu.
  rewrite (round_half_even_wd (2 * x / 2 ^ (ilog2 x - 52 + 1))
             (x / 2 ^ (ilog2 x - 52))).
  - rewrite pow2_succ. ring.
  - rewrite pow2_succ. field. intros Z0. rewrite Z0 in Pu. now apply (Qlt_irrefl 0).
Qed.

Lemma binary64_pos (x : Q) : 0 < x -> binary64 x = nearest x.
Proof.
  intros H. unfold binary64.
  destruct (Qcompare_spec x 0); [exfalso; lra | exfalso; lra | reflexivity].
Qed.

Lemma binary64_neg (x : Q) : x < 0 -> binary64 x = - nearest (- x).
Proof.
  intros H. unfold binary64.
  destruct (Qcompare_spec x 0); [exfalso; lra | reflexivity | exfalso; lra].
Qed.

Lemma binary64_zero (x : Q) : x == 0 -> binary64 x = 0.
Proof.
  intros H. unfold binary64.
  destruct (Qcompare_spec x 0); [reflexivity | exfalso; lra | exfalso; lra].
Qed.

Lemma binary64_mono (x y : Q) : x <= y -> binary64 x <= binary64 y.
Proof.
  intros H.
  destruct (Qcompare_spec x 0) as [X | X | X];
    destruct (Qcompare_spec y 0) as [Y | Y | Y]; try (exfalso; lra).
  - rewrite (binary64_zero x X), (binary64_zero y Y). apply Qle_refl.
  - rewrite (binary64_zero x X), (binary64_pos y Y).
    apply Qlt_le_weak. now apply nearest_pos.
  - rewrite (binary64_neg x X), (binary64_zero y Y).
    assert (0 < nearest (- x)) by (apply nearest_pos; lra). lra.
  - rewrite (binary64_neg x X), (binary64_neg y Y).
    assert (nearest (- y) <= nearest (- x)) by (apply nearest_mono; lra). lra.
  - rewrite (binary64_neg x X), (binary64_pos y Y).
    assert (0 < nearest (- x)) by (apply nearest_pos; lra).
    assert (0 < nearest y) by (now apply nearest_pos). lra.
  - rewrite (binary64_pos x X), (binary64_pos y Y). now apply nearest_mono.
Qed.

Lemma binary64_wd (x y : Q) : x == y -> binary64 x == binary64 y.
Proof.
  intros E. apply Qle_antisym; apply binary64_mono; lra.
Qed.

Lemma binary64_idempotent (x : Q) : binary64 (binary64 x) == binary64 x.
Proof.
  destruct (Qcompare_spec x 0) as [X | X | X].
  - rewrite (binary64_zero x X). reflexivity.
  - rewrite (binary64_neg x X).
    assert (P : 0 < nearest (- x)) by (apply nearest_pos; lra).
    rewrite binary64_neg by lra.
    rewrite (nearest_wd (- - nearest (- x)) (nearest (- x))) by lra.
    rewrite nearest_idempotent by lra. reflexivity.
  - rewrite (binary64_pos x X).
    rewrite binary64_pos by (now apply nearest_pos).
    now apply nearest_idempotent.
Qed.

Lemma binary64_double (x : Q) : binary64 (2 * x) == 2 * binary64 x.
Proof.
  destruct (Qcompare_spec x 0) as [X | X | X].
  - rewrite (binary64_zero x X), binary64_zero by lra. reflexivity.
  - rewrite (binary64_neg x X), binary64_neg by lra.
    rewrite (nearest_wd (- (2 * x)) (2 * - x)) by lra.
    rewrite nearest_double by lra. ring.
  - rewrite (binary64_pos x X), binary64_pos by lra. now apply nearest_double.
Qed.

Lemma binary64_half (x : Q) : binary64 (x / 2) == binary64 x / 2.
Proof.
  assert (E : binary64 x == 2 * binary64 (x / 2)).
  { rewrite <- binary64_double. apply binary64_wd. field. }
  rewrite E. field.
Qed.

(** The midpoint of two floats is a float between them. *)
Lemma midpoint_between (l r : Q) :
  is_float l -> is_float r -> l <= r ->
  l <= fdiv (fadd l r) 2 <= r /\ is_float (fdiv (fadd l r) 2).
Proof.
  unfold is_float, fdiv, fadd. intros Fl Fr H.
  assert (M : binary64 (binary64 (l + r) / 2) == binary64 (l + r) / 2).
  { rewrite binary64_half, binary64_idempotent. reflexivity. }
  split.
  - rewrite M.
    assert (A : binary64 (2 * l) <= binary64 (l + r)) by (apply binary64_mono; lra).
    assert (B : binary64 (l + r) <= binary64 (2 * r)) by (apply binary64_mono; lra).
    rewrite binary64_double in A, B. rewrite Fl in A. rewrite Fr in B.
    split; [apply Qle_shift_div_l | apply Qle_shift_div_r]; lra.
  - apply binary64_idempotent.
Qed.

End FloatFacts.

(** ** Angle arithmetic *)

Module AngleFacts.

Import AngleMath.

Lemma angular_distance_sym (lon1 lon2 : Q) :
  angular_distance lon1 lon2 = angular_distance lon2 lon1.
Proof.
  unfold angular_distance. now rewrite (Qabs_Qminus lon1 lon2).
Qed.

Lemma angular_distance_range (lon1 lon2 : Q) :
  Qabs (lon1 - lon2) <= 360 -> 0 <= angular_distance lon1 lon2 <= 180.
Proof.
  intros H. unfold angular_distance.
  pose proof (Qabs_nonneg (lon1 - lon2)) as Hn.
  qcases; split; lra.
Qed.

Lemma longitudes_close (lon1 lon2 : Q) :
  0 <= lon1 < 360 -> 0 <= lon2 < 360 -> Qabs (lon1 - lon2) < 360.
Proof.
  intros H1 H2. apply Qabs_Qlt_condition. split; lra.
Qed.

(** C7, as the code has it: [angular_distance] is symmetric for all
    longitudes; it takes no modulo, so its result lies in [0, 180] when the
    two longitudes are at most 360 degrees apart, as any two longitudes of
    [0, 360) are. *)
Theorem angular_distance_symmetric_bounded (lon1 lon2 : Q) :
  angular_distance lon1 lon2 = angular_distance lon2 lon1 /\
  (Qabs (lon1 - lon2) <= 360 -> 0 <= angular_distance lon1 lon2 <= 180) /\
  (0 <= lon1 < 360 -> 0 <= lon2 < 360 -> 0 <= angular_distance lon1 lon2 <= 180).
Proof.
  split; [apply angular_distance_sym | split].
  - apply angular_distance_range.
  - intros H1 H2. apply angular_distance_range, Qlt_le_weak.
    now apply longitudes_close.
Qed.

Lemma angular_distance_symmetric_bounded_witness :
  Qabs (1 - 359) <= 360 /\ 0 <= angular_distance 1 359 <= 180 /\
  angular_distance 1 359 == 2.
Proof.
  assert (H : Qabs (1 - 359) <= 360) by (vm_compute; discriminate).
  split; [exact H | split].
  - exact (proj1 (proj2 (angular_distance_symmetric_bounded 1 359)) H).
  - reflexivity.
Defined.

(** C7 fails two full turns apart: the distance between 0 and 720 degrees
    comes out as -360. *)
Lemma angular_distance_out_of_range :
  angular_distance 0 720 == -360 /\ ~ (0 <= angular_distance 0 720 <= 180).
Proof.
  split; [reflexivity | intros [H _]; vm_compute in H; now apply H].
Qed.

Example short_arc_boundaries :
  angular_distance 1 359 == 2 /\ angular_distance 0 180 == 180 /\
  is_aspect_within_orb (3598 # 10) 0 (1 # 2) = true.
Proof. repeat split. Qed.

(** C8, as the code has it: for longitudes in [0, 360) the long arc of
    [angular_distance_both_arcs] (and of [calculate_angle_between_planets])
    lies in [180, 360], and the two arcs add up to 360. *)
Theorem long_arc_range (lon1 lon2 : Q) :
  0 <= lon1 < 360 -> 0 <= lon2 < 360 ->
  let (short_arc, long_arc) := angular_distance_both_arcs lon1 lon2 in
  180 <= long_arc <= 360 /\ 0 <= short_arc <= 180 /\
  short_arc + long_arc == 360 /\
  AspectCalculator.calculate_angle_between_planets lon1 lon2
  = (short_arc, long_arc).
Proof.
  intros H1 H2. unfold angular_distance_both_arcs.
  pose proof (longitudes_close _ _ H1 H2) as Hc.
  pose proof (Qabs_nonneg (lon1 - lon2)) as Hn.
  unfold AspectCalculator.calculate_angle_between_planets.
  qcases; repeat split; try lra.
Qed.

Lemma long_arc_range_witness :
  let (short_arc, long_arc) := angular_distance_both_arcs 10 300 in
  180 <= long_arc <= 360 /\ 0 <= short_arc <= 180 /\
  short_arc + long_arc == 360 /\
  AspectCalculator.calculate_angle_between_planets 10 300
  = (short_arc, long_arc).
Proof.
  apply (long_arc_range 10 300); split; vm_compute; congruence.
Defined.

(** C8 fails for equal longitudes: the long arc between 0 and 0 is 360. *)
Lemma long_arc_exceeds_180 :
  snd (angular_distance_both_arcs 0 0) == 360 /\
  ~ (0 <= snd (angular_distance_both_arcs 0 0) <= 180).
Proof.
  split; [reflexivity | intros [_ H]; vm_compute in H; now apply H].
Qed.

Lemma add_turns_enough (n : nat) : forall angle : Q,
  - (360 * inject_Z (Z.of_nat n)) <= angle ->
  exists (r : Q) (k : Z),
    add_turns (S n) angle = Some r /\ 0 <= r /\
    r == angle + 360 * inject_Z k /\
    (angle < 0 -> r < 360) /\ (0 <= angle -> r = angle).
Proof.
  induction n as [| n IH]; intros angle H.
  - change (inject_Z (Z.of_nat 0)) with 0 in H. cbn [add_turns].
    assert (E : Qltb angle 0 = false) by (apply Qltb_ge; lra).
    rewrite E. exists angle, 0%Z. repeat split; try lra.
    change (inject_Z 0) with 0. lra.
  - remember (S n) as m. cbn [add_turns]. subst m.
    destruct (Qltb angle 0) eqn:E.
    + apply Qltb_lt in E.
      rewrite Nat2Z.inj_succ in H. unfold Z.succ in H.
      rewrite inject_Z_plus in H. change (inject_Z 1) with 1 in H.
      destruct (IH (angle + 360)) as (r & k & R & R0 & Rk & Rlt & Req); [lra |].
      exists r, (k + 1)%Z. rewrite inject_Z_plus. change (inject_Z 1) with 1.
      repeat split; trivial; try lra.
      intros _. destruct (Qlt_le_dec (angle + 360) 0) as [L | L].
      * now apply Rlt.
      * rewrite (Req L). lra.
    + apply Qltb_ge in E. exists angle, 0%Z. change (inject_Z 0) with 0.
      repeat split; trivial; lra.
Qed.

Lemma drop_turns_enough (n : nat) : forall angle : Q,
  0 <= angle -> angle <= 360 * inject_Z (Z.of_nat n) ->
  exists (r : Q) (k : Z),
    drop_turns (S n) angle = Some r /\ 0 <= r < 360 /\
    r == angle + 360 * inject_Z k /\ (angle < 360 -> r = angle).
Proof.
  induction n as [| n IH]; intros angle H0 H.
  - change (inject_Z (Z.of_nat 0)) with 0 in H. cbn [drop_turns].
    assert (E : Qle_bool 360 angle = false) by (apply Qle_bool_gt; lra).
    rewrite E. exists angle, 0%Z. change (inject_Z 0) with 0.
    repeat split; trivial; lra.
  - remember (S n) as m. cbn [drop_turns]. subst m.
    destruct (Qle_bool 360 angle) eqn:E.
    + apply Qle_bool_iff in E.
      rewrite Nat2Z.inj_succ in H. unfold Z.succ in H.
      rewrite inject_Z_plus in H. change (inject_Z 1) with 1 in H.
      destruct (IH (angle - 360)) as (r & k & R & Rr & Rk & _); [lra | lra |].
      exists r, (k - 1)%Z. unfold Z.sub. rewrite inject_Z_plus.
      change (inject_Z (- (1))) with (- (1)).
      repeat split; trivial; try lra.
    + apply Qle_bool_gt in E. exists angle, 0%Z. change (inject_Z 0) with 0.
      repeat split; trivial; lra.
Qed.

(** [normalize_angle] with enough fuel, [n + 1] when |angle| <= 360 n,
    returns the angle of [0, 360) that differs from its argument by a
    whole number of turns; an angle already in [0, 360) is returned as
    it is. *)
Theorem normalize_angle_wraps (angle : Q) (n : nat) :
  Qabs angle <= 360 * inject_Z (Z.of_nat n) ->
  exists (r : Q) (k : Z),
    normalize_angle (S n) angle = Some r /\ 0 <= r < 360 /\
    r == angle + 360 * inject_Z k /\ (0 <= angle < 360 -> r = angle).
Proof.
  intros H. apply Qabs_Qle_condition in H. destruct H as [Hl Hu].
  destruct (add_turns_enough n angle Hl) as (a & k1 & A & A0 & Ak & Alt & Aeq).
  assert (Ha : a <= 360 * inject_Z (Z.of_nat n)).
  { destruct (Qlt_le_dec angle 0) as [L | L].
    - specialize (Alt L).
      destruct n as [| n].
      + change (inject_Z (Z.of_nat 0)) with 0 in Hl. lra.
      + rewrite Nat2Z.inj_succ. unfold Z.succ. rewrite inject_Z_plus.
        change (inject_Z 1) with 1.
        assert (0 <= inject_Z (Z.of_nat n)).
        { change 0 with (inject_Z 0). rewrite <- Zle_Qle. lia. }
        lra.
    - now rewrite (Aeq L). }
  destruct (drop_turns_enough n a A0 Ha) as (r & k2 & R & Rr & Rk & Req).
  exists r, (k1 + k2)%Z. unfold normalize_angle. rewrite A, R.
  rewrite inject_Z_plus. repeat split; trivial; try lra.
  intros [H0 H360]. rewrite <- (Aeq H0). apply Req. now rewrite (Aeq H0).
Qed.

Lemma normalize_angle_wraps_witness :
  Qabs (-725) <= 360 * inject_Z (Z.of_nat 3) /\
  normalize_angle 4 (-725) = Some 355 /\
  exists (r : Q) (k : Z),
    normalize_angle 4 (-725) = Some r /\ 0 <= r < 360 /\
    r == -725 + 360 * inject_Z k /\ (0 <= -725 < 360 -> r = -725).
Proof.
  assert (H : Qabs (-725) <= 360 * inject_Z (Z.of_nat 3))
    by (vm_compute; discriminate).
  split; [exact H | split; [reflexivity |]].
  exact (normalize_angle_wraps (-725) 3 H).
Defined.

Lemma arcs_add_up (lon1 lon2 : Q) :
  fst (angular_distance_both_arcs lon1 lon2)
  + snd (angular_distance_both_arcs lon1 lon2) == 360 /\
  fst (angular_distance_both_arcs lon1 lon2) <= 180 /\
  180 <= snd (angular_distance_both_arcs lon1 lon2).
Proof.
  unfold angular_distance_both_arcs. cbn [fst snd]. unfold Qltb.
  destruct (Qle_bool (Qabs (lon1 - lon2)) 180) eqn:E; cbn [negb];
    [apply Qle_bool_iff in E | apply Qle_bool_gt in E]; repeat split; lra.
Qed.

Lemma short_arc_is_distance (lon1 lon2 : Q) :
  fst (angular_distance_both_arcs lon1 lon2) = angular_distance lon1 lon2.
Proof.
  unfold angular_distance_both_arcs, angular_distance, Qltb. cbn [fst].
  destruct (Qle_bool (Qabs (lon1 - lon2)) 180); reflexivity.
Qed.

(** For all longitudes, in range or not, the two arcs add up to 360, the
    short arc is at most 180 and the long arc at least 180, and the short
    arc is the value of [angular_distance]. *)
Theorem both_arcs_split_the_circle (lon1 lon2 : Q) :
  let (short_arc, long_arc) := angular_distance_both_arcs lon1 lon2 in
  short_arc + long_arc == 360 /\ short_arc <= 180 <= long_arc /\
  short_arc = angular_distance lon1 lon2.
Proof.
  pose proof (arcs_add_up lon1 lon2) as (S & L & U).
  pose proof (short_arc_is_distance lon1 lon2) as D.
  destruct (angular_distance_both_arcs lon1 lon2) as [s l].
  cbn [fst snd] in *. repeat split; trivial.
Qed.

(** A target angle and its reflex are matched by the same pairs of
    longitudes: [is_aspect_within_orb_both_arcs] gives the same answer for
    [target_angle] and for [360 - target_angle]. *)
Theorem both_arcs_match_reflex_target (lon1 lon2 target_angle orb : Q) :
  let (short_arc, long_arc) := angular_distance_both_arcs lon1 lon2 in
  is_aspect_within_orb_both_arcs short_arc long_arc target_angle orb
  = is_aspect_within_orb_both_arcs short_arc long_arc (360 - target_angle) orb.
Proof.
  pose proof (arcs_add_up lon1 lon2) as (S & _ & _).
  destruct (angular_distance_both_arcs lon1 lon2) as [s l].
  cbn [fst snd] in S. unfold is_aspect_within_orb_both_arcs.
  assert (E1 : Qabs (s - (360 - target_angle)) == Qabs (l - target_angle)).
  { rewrite <- (Qabs_opp (l - target_angle)). apply Qabs_wd. lra. }
  assert (E2 : Qabs (l - (360 - target_angle)) == Qabs (s - target_angle)).
  { rewrite <- (Qabs_opp (s - target_angle)). apply Qabs_wd. lra. }
  rewrite (Qleb_comp _ _ E1 orb orb (Qeq_refl orb)).
  rewrite (Qleb_comp _ _ E2 orb orb (Qeq_refl orb)).
  apply orb_comm.
Qed.

(** For two angles of [0, 360), [is_aspect_within_orb] holds exactly when
    the angle, moved by some whole number of turns, is within [orb] of the
    target. *)
Theorem within_orb_is_circular (angle target_angle orb : Q) :
  0 <= angle < 360 -> 0 <= target_angle < 360 ->
  (is_aspect_within_orb angle target_angle orb = true <->
   exists k : Z, Qabs (angle + 360 * inject_Z k - target_angle) <= orb).
Proof.
  intros Ha Ht. unfold is_aspect_within_orb. rewrite Qle_bool_iff.
  pose proof (Qabs_nonneg (angle - target_angle)) as Hn.
  assert (Hd : Qabs (angle - target_angle) < 360)
    by (apply Qabs_Qlt_condition; split; lra).
  split.
  - intros H. destruct (Qltb 180 (Qabs (angle - target_angle))) eqn:E.
    + apply Qltb_lt in E. destruct (Qlt_le_dec angle target_angle) as [L | L].
      * exists 1%Z. change (inject_Z 1) with 1.
        rewrite Qabs_neg in E, H by lra.
        apply Qabs_Qle_condition. split; lra.
      * exists (-1)%Z. change (inject_Z (-1)) with (-(1)).
        rewrite Qabs_pos in E, H by lra.
        apply Qabs_Qle_condition. split; lra.
    + exists 0%Z. change (inject_Z 0) with 0.
      assert (X : angle + 360 * 0 - target_angle == angle - target_angle) by lra.
      now rewrite X.
  - intros [k H]. apply Qabs_Qle_condition in H. destruct H as [Hl Hu].
    assert (Hb : -360 < angle - target_angle < 360) by lra.
    destruct (Z_lt_le_dec k 0) as [K | K].
    + assert (Kq : inject_Z k <= -(1)).
      { change (-(1)) with (inject_Z (-1)). rewrite <- Zle_Qle. lia. }
      destruct (Qltb 180 (Qabs (angle - target_angle))) eqn:E;
        [apply Qltb_lt in E | apply Qltb_ge in E];
        revert E; apply Qabs_case; intros; lra.
    + destruct (Z_lt_le_dec 0 k) as [K' | K'].
      * assert (Kq : 1 <= inject_Z k).
        { change 1 with (inject_Z 1). rewrite <- Zle_Qle. lia. }
        destruct (Qltb 180 (Qabs (angle - target_angle))) eqn:E;
          [apply Qltb_lt in E | apply Qltb_ge in E];
          revert E; apply Qabs_case; intros; lra.
      * assert (k = 0%Z) by lia. subst k. change (inject_Z 0) with 0 in *.
        destruct (Qltb 180 (Qabs (angle - target_angle))) eqn:E;
          [apply Qltb_lt in E | apply Qltb_ge in E];
          revert E; apply Qabs_case; intros; lra.
Qed.

Lemma within_orb_is_circular_witness :
  0 <= 3598 # 10 < 360 /\ 0 <= 0 < 360 /\
  is_aspect_within_orb (3598 # 10) 0 (1 # 2) = true /\
  exists k : Z, Qabs ((3598 # 10) + 360 * inject_Z k - 0) <= 1 # 2.
Proof.
  assert (Ha : 0 <= 3598 # 10 < 360) by (split; vm_compute; congruence).
  assert (Ht : 0 <= 0 < 360) by (split; vm_compute; congruence).
  split; [exact Ha | split; [exact Ht | split; [reflexivity |]]].
  apply (proj1 (within_orb_is_circular (3598 # 10) 0 (1 # 2) Ha Ht)).
  reflexivity.
Defined.

End AngleFacts.

(** ** Price patterns *)

Module PatternFacts.

Import PatternDemo.

Lemma regular_excludes (price : Z) :
  is_regular_45_multiple price = true ->
  is_bold_pattern price = false /\ is_short_term_pattern price = false.
Proof.
  unfold is_regular_45_multiple.
  destruct (negb (price mod 45 =? 0)%Z || (price <=? 0)%Z); [discriminate |].
  destruct (is_in price priority_patterns); [discriminate |].
  destruct (is_bold_pattern price); [discriminate |].
  destruct (is_short_term_pattern price); [discriminate |].
  now split.
Qed.

(** A priority level is written with two or three digits. *)
Lemma priority_short (price : Z) :
  is_in price priority_patterns = true ->
  (String.length (str price) <? 4)%nat = true.
Proof.
  unfold is_in, priority_patterns. cbn [existsb].
  rewrite !orb_true_iff, !Z.eqb_eq.
  intros H. decompose [or] H; subst; try reflexivity; discriminate.
Qed.

Lemma bold_excludes_short (price : Z) :
  is_bold_pattern price = true -> is_short_term_pattern price = false.
Proof.
  unfold is_bold_pattern, is_short_term_pattern.
  destruct (is_in price priority_patterns) eqn:P.
  - apply priority_short in P. apply Nat.ltb_lt in P. intros _.
    destruct (String.length (str price) =? 5)%nat eqn:L5;
      [apply Nat.eqb_eq in L5; lia |].
    destruct (String.length (str price) =? 4)%nat eqn:L4;
      [apply Nat.eqb_eq in L4; lia |].
    reflexivity.
  - cbv zeta. generalize (String.length (str price)). intros n.
    destruct (n =? 5)%nat eqn:L5; destruct (n =? 4)%nat eqn:L4;
      destruct ((price / 100) mod 45 =? 0)%Z eqn:M;
      destruct (0 <? price / 100)%Z eqn:G;
      destruct (price / 100 =? 0)%Z eqn:N;
      rewrite ?andb_false_r, ?andb_true_r, ?andb_false_l, ?andb_true_l;
      cbn [negb orb andb];
      rewrite ?andb_false_r, ?andb_true_r, ?andb_false_l, ?andb_true_l;
      try reflexivity; try discriminate;
      try (apply Z.ltb_lt in G; apply Z.eqb_eq in N; lia);
      try (apply Nat.eqb_eq in L5; apply Nat.eqb_eq in L4; lia);
      try (apply Nat.eqb_eq in L5; subst n; cbn; discriminate);
      try (apply Nat.eqb_eq in L4; subst n; cbn; discriminate).
    all: destruct (price mod 100 =? 0)%Z; cbn [andb]; discriminate.
Qed.

(** C10: for a positive price at most one of [is_bold_pattern],
    [is_short_term_pattern] and [is_regular_45_multiple] is [True]. *)
Theorem patterns_mutually_exclusive (price : Z) :
  (0 < price)%Z ->
  (is_bold_pattern price && is_short_term_pattern price = false) /\
  (is_bold_pattern price && is_regular_45_multiple price = false) /\
  (is_short_term_pattern price && is_regular_45_multiple price = false).
Proof.
  intros _. repeat split.
  - destruct (is_bold_pattern price) eqn:B; [| reflexivity].
    now rewrite (bold_excludes_short _ B).
  - destruct (is_regular_45_multiple price) eqn:R; [| apply andb_false_r].
    now rewrite (proj1 (regular_excludes _ R)).
  - destruct (is_regular_45_multiple price) eqn:R; [| apply andb_false_r].
    now rewrite (proj2 (regular_excludes _ R)).
Qed.

Lemma patterns_mutually_exclusive_witness :
  (0 < 4500)%Z /\
  is_bold_pattern 4500 = true /\
  (is_bold_pattern 4500 && is_short_term_pattern 4500 = false) /\
  (is_bold_pattern 4500 && is_regular_45_multiple 4500 = false) /\
  (is_short_term_pattern 4500 && is_regular_45_multiple 4500 = false).
Proof.
  split; [reflexivity | split; [reflexivity |]].
  apply (patterns_mutually_exclusive 4500). reflexivity.
Defined.

Example short_term_1045 :
  is_bold_pattern 1045 = false /\ is_short_term_pattern 1045 = true /\
  is_regular_45_multiple 1045 = false.
Proof. repeat split. Qed.

Example regular_45045 :
  is_bold_pattern 495 = true /\ is_regular_45_multiple 495 = false /\
  is_regular_45_multiple 45045 = true /\ is_short_term_pattern 45045 = false.
Proof. repeat split. Qed.

Lemma bold_is_multiple (price : Z) :
  is_bold_pattern price = true -> (price mod 45 = 0)%Z /\ (0 < price)%Z.
Proof.
  unfold is_bold_pattern.
  destruct (is_in price priority_patterns) eqn:P.
  - intros _. unfold is_in, priority_patterns in P. cbn [existsb] in P.
    rewrite !orb_true_iff, !Z.eqb_eq in P.
    decompose [or] P; subst; try discriminate; split; reflexivity.
  - cbv zeta. generalize (String.length (str price)). intros n.
    destruct (n =? 5)%nat; destruct (n =? 4)%nat; destruct (n =? 3)%nat;
      cbn [andb];
      destruct (price mod 100 =? 0)%Z eqn:L;
      destruct ((price / 100) mod 45 =? 0)%Z eqn:M;
      destruct (0 <? price / 100)%Z eqn:G;
      destruct (price mod 45 =? 0)%Z eqn:D;
      destruct (0 <? price)%Z eqn:S;
      cbn [andb]; try discriminate; intros _;
      rewrite ?Z.eqb_eq, ?Z.ltb_lt in *;
      try (split; assumption).
    all: pose proof (Z.div_mod price 100 ltac:(lia)) as E;
      pose proof (Z.div_mod (price / 100) 45 ltac:(lia)) as E';
      rewrite L in E; rewrite M in E';
      assert (price = 45 * (100 * (price / 100 / 45)))%Z as -> by lia;
      split; [rewrite Z.mul_comm; apply Z.mod_mul; lia | lia].
Qed.

(** A long-term pattern is a positive multiple of 45. *)
Theorem bold_pattern_is_multiple_of_45 (price : Z) :
  is_bold_pattern price = true -> (price mod 45 = 0)%Z /\ (0 < price)%Z.
Proof. apply bold_is_multiple. Qed.

Lemma bold_pattern_is_multiple_of_45_witness :
  is_bold_pattern 22500 = true /\ (22500 mod 45 = 0)%Z /\ (0 < 22500)%Z.
Proof.
  split; [reflexivity |].
  exact (bold_pattern_is_multiple_of_45 22500 eq_refl).
Defined.

(** A positive multiple of 45 is in exactly one of the three categories. *)
Theorem multiple_of_45_has_one_category (price : Z) :
  (0 < price)%Z -> (price mod 45 = 0)%Z ->
  (is_bold_pattern price = true /\ is_short_term_pattern price = false /\
   is_regular_45_multiple price = false) \/
  (is_bold_pattern price = false /\ is_short_term_pattern price = true /\
   is_regular_45_multiple price = false) \/
  (is_bold_pattern price = false /\ is_short_term_pattern price = false /\
   is_regular_45_multiple price = true).
Proof.
  intros Hp Hm.
  destruct (is_bold_pattern price) eqn:B.
  - left. split; [reflexivity | split; [now apply bold_excludes_short |]].
    destruct (is_regular_45_multiple price) eqn:R; [| reflexivity].
    apply regular_excludes in R. destruct R. congruence.
  - destruct (is_short_term_pattern price) eqn:S.
    + right; left. split; [reflexivity | split; [reflexivity |]].
      destruct (is_regular_45_multiple price) eqn:R; [| reflexivity].
      apply regular_excludes in R. destruct R. congruence.
    + right; right. split; [reflexivity | split; [reflexivity |]].
      unfold is_regular_45_multiple. rewrite B, S.
      assert ((price mod 45 =? 0)%Z = true) as -> by now apply Z.eqb_eq.
      assert ((price <=? 0)%Z = false) as -> by (apply Z.leb_gt; lia).
      cbn [negb orb].
      destruct (is_in price priority_patterns) eqn:P; [| reflexivity].
      unfold is_bold_pattern in B. now rewrite P in B.
Qed.

Lemma multiple_of_45_has_one_category_witness :
  (0 < 45045)%Z /\ (45045 mod 45 = 0)%Z /\
  ((is_bold_pattern 45045 = true /\ is_short_term_pattern 45045 = false /\
    is_regular_45_multiple 45045 = false) \/
   (is_bold_pattern 45045 = false /\ is_short_term_pattern 45045 = true /\
    is_regular_45_multiple 45045 = false) \/
   (is_bold_pattern 45045 = false /\ is_short_term_pattern 45045 = false /\
    is_regular_45_multiple 45045 = true)).
Proof.
  split; [reflexivity | split; [reflexivity |]].
  apply (multiple_of_45_has_one_category 45045); reflexivity.
Defined.

Lemma explain_long_some (price : Z) :
  is_bold_pattern price = true -> is_in price priority_patterns = false ->
  exists rest, explain_long price (String.length (str price))
               = Some (String "x" rest).
Proof.
  unfold is_bold_pattern, explain_long. intros B P. rewrite P in B.
  cbv zeta in *. revert B. generalize (String.length (str price)). intros n.
  destruct (n =? 5)%nat; destruct (n =? 4)%nat; destruct (n =? 3)%nat;
    cbn [andb];
    destruct (price mod 100 =? 0)%Z;
    destruct ((price / 100) mod 45 =? 0)%Z;
    destruct (0 <? price / 100)%Z;
    cbn [andb]; try discriminate; intros _; eexists; reflexivity.
Qed.

Lemma explain_short_some (price : Z) :
  is_short_term_pattern price = true ->
  exists rest, explain_short price (String.length (str price))
               = Some (String "y" rest).
Proof.
  unfold is_short_term_pattern, explain_short.
  generalize (String.length (str price)). intros n.
  destruct (n =? 5)%nat; [intros _; eexists; reflexivity |].
  destruct (n =? 4)%nat; [intros _; eexists; reflexivity |].
  cbn [andb]. discriminate.
Qed.

(** [explain_pattern] never answers "Unknown pattern", and it answers
    "Not a 45° pattern" exactly when none of the three classifiers holds. *)
Theorem explain_pattern_covers_every_pattern (price : Z) :
  explain_pattern price <> "Unknown pattern"%string /\
  (explain_pattern price = "Not a 45° pattern"%string <->
   is_bold_pattern price = false /\ is_short_term_pattern price = false /\
   is_regular_45_multiple price = false).
Proof.
  unfold explain_pattern. cbv zeta.
  destruct (is_regular_45_multiple price) eqn:R.
  - destruct (regular_excludes _ R) as [-> ->]. cbn [negb andb].
    split; [discriminate |]. split; [discriminate | intros (_ & _ & H); discriminate].
  - destruct (is_bold_pattern price) eqn:B.
    + cbn [negb andb].
      destruct (is_in price priority_patterns) eqn:P.
      * split; [discriminate |].
        split; [discriminate | intros (H & _); discriminate].
      * destruct (explain_long_some _ B P) as [rest ->].
        split; [discriminate |].
        split; [discriminate | intros (H & _); discriminate].
    + destruct (is_short_term_pattern price) eqn:S.
      * cbn [negb andb].
        assert (P : is_in price priority_patterns = false).
        { destruct (is_in price priority_patterns) eqn:P; [| reflexivity].
          unfold is_bold_pattern in B. now rewrite P in B. }
        rewrite P. destruct (explain_short_some _ S) as [rest ->].
        split; [discriminate |].
        split; [discriminate | intros (_ & H & _); discriminate].
      * cbn [negb andb]. split; [discriminate |]. split; auto.
Qed.

Example explain_pattern_examples :
  explain_pattern 12346 = "Not a 45° pattern"%string /\
  explain_pattern 90 = "Priority Gann level (90°)"%string /\
  explain_pattern 4500 = "xx00 pattern (first 2: 45 ÷ 45 = 1, last 2: 00)"%string /\
  explain_pattern 1045 = "yxxx pattern (last 3: 45 ÷ 45 = 1)"%string /\
  explain_pattern 45045 = "Regular 45° multiple (45045 ÷ 45 = 1001)"%string.
Proof. repeat split. Qed.

End PatternFacts.

(** ** The aspect matcher *)

Module MatcherFacts.

Import Spec.

Lemma first_match_cons_fail {D : Type} (test : D -> bool) (name : D -> string)
  (d : D) (catalog : list D) (r : string) :
  test d = false -> first_match test name catalog r ->
  first_match test name (d :: catalog) r.
Proof.
  intros Hd [(pre & x & post & -> & Hx & Hn & Hpre) | [Hall ->]].
  - left. exists (d :: pre), x, post. repeat split; auto.
  - right. split; auto.
Qed.

Lemma first_match_cons_pass {D : Type} (test : D -> bool) (name : D -> string)
  (d : D) (catalog : list D) :
  test d = true -> first_match test name (d :: catalog) (name d).
Proof.
  intros Hd. left. exists [], d, catalog. repeat split; auto.
Qed.

Lemma get_aspect_type_loop_first (items : list (string * Q)) (orb s l : Q) :
  first_match (AspectCalculator.orb_test orb s l) fst items
              (AspectCalculator.get_aspect_type_loop items orb s l).
Proof.
  induction items as [| [n a] rest IH]; cbn [AspectCalculator.get_aspect_type_loop].
  - right. split; [constructor | reflexivity].
  - destruct (String.eqb n "Gann74") eqn:G.
    + destruct (Qle_bool (Qabs (l - (360 - a))) orb) eqn:T.
      * apply (first_match_cons_pass _ fst (n, a)).
        unfold AspectCalculator.orb_test. now rewrite G.
      * apply first_match_cons_fail; [| exact IH].
        unfold AspectCalculator.orb_test. now rewrite G.
    + destruct (Qle_bool (Qabs (s - a)) orb) eqn:T.
      * apply (first_match_cons_pass _ fst (n, a)).
        unfold AspectCalculator.orb_test. now rewrite G.
      * apply first_match_cons_fail; [| exact IH].
        unfold AspectCalculator.orb_test. now rewrite G.
Qed.

Lemma first_on_arc_some (flag : bool) (items : list (string * Q))
  (orb s l : Q) (n : string) :
  CustomGann.first_on_arc items orb (if flag then l else s) = Some n ->
  exists pre d post,
    map (pair flag) items = pre ++ d :: post /\
    CustomGann.arc_test orb s l d = true /\ fst (snd d) = n /\
    Forall (fun x => CustomGann.arc_test orb s l x = false) pre.
Proof.
  induction items as [| [m a] rest IH]; cbn [CustomGann.first_on_arc map];
    [discriminate |].
  destruct (Qle_bool (Qabs ((if flag then l else s) - a)) orb) eqn:T.
  - intros [= <-]. exists [], (flag, (m, a)), (map (pair flag) rest).
    repeat split; auto.
  - intros H. destruct (IH H) as (pre & d & post & E & Hd & Hn & Hpre).
    exists ((flag, (m, a)) :: pre), d, post. rewrite E.
    repeat split; auto.
Qed.

Lemma first_on_arc_none (flag : bool) (items : list (string * Q)) (orb s l : Q) :
  CustomGann.first_on_arc items orb (if flag then l else s) = None ->
  Forall (fun x => CustomGann.arc_test orb s l x = false) (map (pair flag) items).
Proof.
  induction items as [| [m a] rest IH]; cbn [CustomGann.first_on_arc map];
    [constructor |].
  destruct (Qle_bool (Qabs ((if flag then l else s) - a)) orb) eqn:T;
    [discriminate |].
  intros H. constructor; [exact T | exact (IH H)].
Qed.

Lemma custom_get_aspect_type_first (standard gann : list (string * Q))
  (orb s l : Q) :
  first_match (CustomGann.arc_test orb s l) (fun d => fst (snd d))
              (CustomGann.catalog standard gann)
              (CustomGann.get_aspect_type standard gann orb s l).
Proof.
  unfold CustomGann.get_aspect_type, CustomGann.catalog.
  destruct (CustomGann.first_on_arc standard orb s) as [n |] eqn:S1.
  - destruct (first_on_arc_some false standard orb s l n S1)
      as (pre & d & post & E & Hd & Hn & Hpre).
    left. exists pre, d, (post ++ map (pair true) gann).
    rewrite E, <- app_assoc. repeat split; auto.
  - pose proof (first_on_arc_none false standard orb s l S1) as Hs.
    destruct (CustomGann.first_on_arc gann orb l) as [n |] eqn:S2.
    + destruct (first_on_arc_some true gann orb s l n S2)
        as (pre & d & post & E & Hd & Hn & Hpre).
      left. exists (map (pair false) standard ++ pre), d, post.
      rewrite E, <- app_assoc. repeat split; auto.
      apply Forall_app. now split.
    + right. split; [| reflexivity].
      apply Forall_app. split; [exact Hs |].
      exact (first_on_arc_none true gann orb s l S2).
Qed.

(** C6: for any two longitudes and any ordered catalog, [get_aspect_type]
    returns the name of the first definition, in catalog order, whose orb
    test passes (Gann74, respectively the Gann angles, on the long arc; the
    others on the short arc) and the empty string when none passes.  This
    holds for the matcher of calculate_aspects.py and for the one of
    custom_gann_aspect_finder.py. *)
Theorem get_aspect_type_first_in_catalog_order
  (self : AspectCalculator.calculator) (standard gann : list (string * Q))
  (orb lon1 lon2 : Q) :
  let (short_arc, long_arc) :=
    AspectCalculator.calculate_angle_between_planets lon1 lon2 in
  first_match (AspectCalculator.orb_test (AspectCalculator.self_orb self)
                 short_arc long_arc)
              fst (AspectCalculator.self_aspects self)
              (AspectCalculator.get_aspect_type self short_arc long_arc)
  /\
  first_match (CustomGann.arc_test orb short_arc long_arc)
              (fun d => fst (snd d)) (CustomGann.catalog standard gann)
              (CustomGann.get_aspect_type standard gann orb short_arc long_arc).
Proof.
  destruct (AspectCalculator.calculate_angle_between_planets lon1 lon2)
    as [short_arc long_arc].
  split.
  - apply get_aspect_type_loop_first.
  - apply custom_get_aspect_type_first.
Qed.

(** Declaration order wins over closeness: at a short arc of 60.6 degrees
    the first entry (target 60) is returned although the second (target
    60.5) is closer; swapping the entries swaps the answer. *)
Example declaration_order_beats_closeness :
  let near := AspectCalculator.mk_calculator []
                [("First", 60); ("Second", 121 # 2)]%string 1 14 in
  let swapped := AspectCalculator.mk_calculator []
                [("Second", 121 # 2); ("First", 60)]%string 1 14 in
  let (short_arc, long_arc) :=
    AspectCalculator.calculate_angle_between_planets 0 (606 # 10) in
  AspectCalculator.get_aspect_type near short_arc long_arc = "First"%string /\
  AspectCalculator.get_aspect_type swapped short_arc long_arc = "Second"%string.
Proof. split; reflexivity. Qed.

(** The default catalog: Gann74 is met on the long arc at 286 degrees. *)
Example default_catalog_matches :
  let self := AspectCalculator.default_calculator in
  (let (s, l) := AspectCalculator.calculate_angle_between_planets 10 100 in
   AspectCalculator.get_aspect_type self s l) = "Square"%string /\
  (let (s, l) := AspectCalculator.calculate_angle_between_planets 0 74 in
   AspectCalculator.get_aspect_type self s l) = "Gann74"%string /\
  (let (s, l) := AspectCalculator.calculate_angle_between_planets 0 30 in
   AspectCalculator.get_aspect_type self s l) = EmptyString.
Proof. repeat split. Qed.

End MatcherFacts.

(** ** The exact-time solver *)

Module SolverFacts.

Import Scanner.

Section Bisection.

Variable f : Q -> efloat.

Lemma bisect_within (n : nat) : forall l r : Q,
  is_float l -> is_float r -> l <= r ->
  l <= bisect f n l r <= r /\ is_float (bisect f n l r).
Proof.
  induction n as [| n IH]; intros l r Fl Fr H; cbn [bisect].
  - now apply FloatFacts.midpoint_between.
  - destruct (FloatFacts.midpoint_between l r Fl Fr H) as [Hm Fm].
    destruct (efloat_ltb (f (fdiv (fadd l r) 2)) (Fin tolerance)); [now split |].
    destruct (efloat_ltb (f l) (f r)).
    + destruct (IH l _ Fl Fm (proj1 Hm)) as [[A B] C].
      split; [split; lra | exact C].
    + destruct (IH _ r Fm Fr (proj2 Hm)) as [[A B] C].
      split; [split; lra | exact C].
Qed.

Lemma bisect_iterations_le (n : nat) : forall l r : Q,
  (bisect_iterations f n l r <= n)%nat.
Proof.
  induction n as [| n IH]; intros l r; cbn [bisect_iterations]; [lia |].
  destruct (efloat_ltb (f (fdiv (fadd l r) 2)) (Fin tolerance)); [lia |].
  destruct (efloat_ltb (f l) (f r));
    [specialize (IH l (fdiv (fadd l r) 2)) | specialize (IH (fdiv (fadd l r) 2) r)];
    lia.
Qed.

Lemma bisect_early_or_capped (n : nat) : forall l r : Q,
  early f n (l, r) (bisect f n l r) (bisect_iterations f n l r) \/
  capped f n (l, r) (bisect f n l r) (bisect_iterations f n l r).
Proof.
  induction n as [| n IH]; intros l r; unfold early, capped.
  - right. repeat split. intros j Hj. lia.
  - destruct (efloat_ltb (f (fdiv (fadd l r) 2)) (Fin tolerance)) eqn:M.
    + left. exists 0%nat. cbn [interval bisect bisect_iterations].
      unfold midpoint. cbn [fst snd]. rewrite M.
      repeat split; [lia | intros j Hj; lia].
    + assert (Hstep : exists l' r',
                 narrow f (l, r) = (l', r') /\
                 bisect f (S n) l r = bisect f n l' r' /\
                 bisect_iterations f (S n) l r = S (bisect_iterations f n l' r')).
      { cbn [bisect bisect_iterations]. rewrite M. unfold narrow, midpoint.
        cbn [fst snd].
        destruct (efloat_ltb (f l) (f r)); eexists; eexists; repeat split. }
      destruct Hstep as (l' & r' & Hn & Hb & Hi). rewrite Hb, Hi.
      assert (M' : efloat_ltb (f (midpoint (l, r))) (Fin tolerance) = false)
        by exact M.
      cbn [interval]. rewrite Hn.
      destruct (IH l' r')
        as [(k & Hk & Hp & Hbefore & Hr & Hc) | (Hall & Hr & Hc)].
      * left. exists (S k). cbn [interval]. rewrite Hn, Hr, Hc.
        repeat split; [lia | exact Hp |].
        intros [| j] Hj; cbn [interval]; [exact M' | rewrite Hn; apply Hbefore; lia].
      * right. rewrite Hr, Hc.
        repeat split.
        intros [| j] Hj; cbn [interval]; [exact M' | rewrite Hn; apply Hall; lia].
Qed.


End Bisection.

Section Solver.

Variable calc_ut : Z -> Q -> swe_outcome.


(** C3, as the code has it: from a start instant that is a double and for
    a horizon [search_days >= 0], the solver runs at most 100 iterations
    and returns a double of the interval from [start_jd] to the double
    [start_jd + search_days]; it leaves early exactly at the first
    iteration whose midpoint error is below 1e-4, with that midpoint; when
    all 100 iterations ran it returns the midpoint of the last interval. *)
Theorem find_exact_aspect_time_run
  (p1 p2 : Z) (target_angle start_jd search_days : Q) :
  is_float start_jd ->
  0 <= search_days ->
  let f := angle_difference_from_target calc_ut p1 p2 target_angle in
  let right_jd := fadd start_jd search_days in
  let result := find_exact_aspect_time calc_ut p1 p2 target_angle
                  start_jd search_days in
  let iterations := bisect_iterations f 100 start_jd right_jd in
  (iterations <= 100)%nat /\
  start_jd <= result <= right_jd /\
  is_float result /\
  (early f 100 (start_jd, right_jd) result iterations \/
   capped f 100 (start_jd, right_jd) result iterations).
Proof.
  intros Fs H f right_jd result iterations.
  assert (Fr : is_float right_jd) by apply FloatFacts.binary64_idempotent.
  assert (Le : start_jd <= right_jd).
  { unfold right_jd, fadd. unfold is_float in Fs. rewrite <- Fs at 1.
    apply FloatFacts.binary64_mono. lra. }
  destruct (bisect_within f 100 start_jd right_jd Fs Fr Le) as [W Fw].
  split; [apply bisect_iterations_le | split; [exact W | split; [exact Fw |]]].
  apply bisect_early_or_capped.
Qed.


(** With longitudes in [0, 360) and a target angle between 0 and 180, as
    all catalog angles are, the error that the solver minimises is the
    plain difference between the short arc and the target: the two
    wrap-around alternatives never give the minimum. *)
Theorem solver_error_is_plain_difference
  (p1 p2 : Z) (target_angle jd pos1 pos2 : Q) :
  longitudes_in_range calc_ut ->
  0 <= target_angle <= 180 ->
  calculate_position calc_ut p1 jd = Some pos1 ->
  calculate_position calc_ut p2 jd = Some pos2 ->
  exists e : Q,
    angle_difference_from_target calc_ut p1 p2 target_angle jd = Fin e /\
    e == Qabs (AngleMath.angular_distance pos1 pos2 - target_angle) /\
    0 <= e <= 180.
Proof.
  intros C Ht P1 P2. unfold angle_difference_from_target. rewrite P1, P2.
  pose proof (AngleFacts.angular_distance_range pos1 pos2
                (Qlt_le_weak _ _
                   (AngleFacts.longitudes_close pos1 pos2
                      (C _ _ _ P1) (C _ _ _ P2)))) as R.
  set (ca := AngleMath.angular_distance pos1 pos2) in *.
  assert (B : 0 <= Qabs (ca - target_angle) <= 180).
  { split; [apply Qabs_nonneg | apply Qabs_Qle_condition; split; lra]. }
  destruct (Qeq_bool target_angle 180) eqn:E.
  - apply Qeq_bool_iff in E. eexists. split; [reflexivity |].
    assert (X : Qabs (ca - 180) == Qabs (ca - target_angle))
      by (apply Qabs_wd; lra).
    rewrite X. split; [reflexivity | exact B].
  - eexists. split; [reflexivity |].
    assert (D2 : Qabs (ca - target_angle) <= Qabs (ca - (target_angle + 360))).
    { rewrite (Qabs_neg (ca - (target_angle + 360))) by lra. lra. }
    assert (D3 : Qabs (ca - target_angle) <= Qabs (ca + 360 - target_angle)).
    { rewrite (Qabs_pos (ca + 360 - target_angle)) by lra. lra. }
    rewrite (Q.min_l _ _ D2), (Q.min_l _ _ D3). split; [reflexivity | exact B].
Qed.

End Solver.

Lemma find_exact_aspect_time_run_witness :
  is_float 0 /\ 0 <= 1 /\
  let f := angle_difference_from_target Stubs.lure 0 1 90 in
  let right_jd := fadd 0 1 in
  let result := find_exact_aspect_time Stubs.lure 0 1 90 0 1 in
  let iterations := bisect_iterations f 100 0 right_jd in
  (iterations <= 100)%nat /\
  0 <= result <= right_jd /\
  is_float result /\
  (early f 100 (0, right_jd) result iterations \/
   capped f 100 (0, right_jd) result iterations).
Proof.
  assert (F : is_float 0) by reflexivity.
  assert (H : 0 <= 1) by (vm_compute; discriminate).
  split; [exact F | split; [exact H |]].
  exact (find_exact_aspect_time_run Stubs.lure 0 1 90 0 1 F H).
Defined.

(** With a negative horizon the returned instant is not in
    [start_jd, start_jd + search_days]: here it is [start_jd + search_days]
    itself, below [start_jd]. *)
Example negative_horizon :
  find_exact_aspect_time Stubs.silent 0 1 90 0 (-1) == -1.
Proof. vm_compute. reflexivity. Qed.

(** C3 fails on its last part.  With the provider [lure] no midpoint
    error is below 1e-4 and all 100 iterations run.  The first midpoint,
    Julian day 1/2, has error 0.125, the least of all the midpoints; the
    error at the left end, 0.0625, is smaller than the error 5 at the right
    end, so the right end moves in every iteration, and the solver returns
    the last midpoint, [1/2^101], whose error is 5.  Every instant of this
    run is 0 or a power of two, and every error a multiple of 1/16: no sum
    is rounded. *)
Lemma cap_result_is_not_the_best_midpoint :
  let f := angle_difference_from_target Stubs.lure 0 1 90 in
  let result := find_exact_aspect_time Stubs.lure 0 1 90 0 1 in
  bisect_iterations f 100 0 (fadd 0 1) = 100%nat /\
  result == 1 / inject_Z (2 ^ 101) /\
  midpoint (interval f 0 (0, fadd 0 1)) == 1 # 2 /\
  (exists first last : Q,
     f (midpoint (interval f 0 (0, fadd 0 1))) = Fin first /\
     f result = Fin last /\
     first == 1 # 8 /\ last == 5) /\
  efloat_ltb (f result) (Fin tolerance) = false /\
  efloat_ltb (f (midpoint (interval f 0 (0, fadd 0 1)))) (f result) = true.
Proof.
  cbv zeta.
  split; [vm_compute; reflexivity |].
  split; [vm_compute; reflexivity |].
  split; [vm_compute; reflexivity |].
  split; [| split; vm_compute; reflexivity].
  eexists. eexists.
  split; [vm_compute; reflexivity |].
  split; [vm_compute; reflexivity |].
  split; vm_compute; reflexivity.
Qed.



End SolverFacts.

(** ** The scan *)

Module ScanFacts.

Import Scanner.



Section Scan.

Variable calc_ut : Z -> Q -> swe_outcome.

Hypothesis contract : longitudes_in_range calc_ut.



End Scan.


(** A turn of the loop over the instants raises at line 222. *)
Lemma scan_loop_raises (calc_ut : Z -> Q -> swe_outcome)
  (catalog : list (string * aspect_info)) (pairs : list (string * string))
  (start_jd end_jd step_jd : Q) (fuel : nat)
  (current_jd : Q) (found : list aspect_data) :
  current_jd <= end_jd ->
  scan_loop calc_ut catalog pairs start_jd end_jd step_jd (S fuel) current_jd found
  = Some (Raise TypeError).
Proof.
  intros H. cbn [scan_loop]. apply Qle_bool_iff in H. rewrite H.
  unfold scan_instant, datetime. cbn [bind]. reflexivity.
Qed.

(** The scan raises [TypeError] when its first date is not after its last
    one, whatever the provider and the step are. *)
Lemma scan_for_aspects_raises (calc_ut : Z -> Q -> swe_outcome)
  (start_jd end_jd step_hours : Q) (fuel : nat) :
  start_jd <= end_jd ->
  scan_for_aspects calc_ut start_jd end_jd step_hours (S fuel)
  = Some (Raise TypeError).
Proof.
  intros H. unfold scan_for_aspects. now apply scan_loop_raises.
Qed.


(** A pair with a missing position at the scanned instant is skipped. *)
Lemma check_pair_skips_missing (calc_ut : Z -> Q -> swe_outcome)
  (catalog : list (string * aspect_info)) (jd : Q)
  (found : list aspect_data) (p1 p2 : string) (code1 code2 : Z) :
  lookup planets p1 = Ok code1 -> lookup planets p2 = Ok code2 ->
  calculate_position calc_ut code1 jd = None \/
  calculate_position calc_ut code2 jd = None ->
  check_pair calc_ut catalog jd found (p1, p2) = Ok found.
Proof.
  intros L1 L2 H. unfold check_pair. rewrite L1, L2. cbn [bind].
  destruct H as [-> | ->]; [reflexivity |].
  now destruct (calculate_position calc_ut code1 jd).
Qed.

Lemma square_in_range : longitudes_in_range Stubs.square.
Proof.
  intros code jd lon. unfold calculate_position, Stubs.square.
  destruct (code =? 0)%Z; [intros [= <-]; split; vm_compute; congruence |].
  destruct (code =? 1)%Z; [intros [= <-]; split; vm_compute; congruence |].
  discriminate.
Qed.

(** A refined instant of exactly zero is dropped by [if exact_jd]. *)
Example zero_instant_is_dropped :
  check_aspect Stubs.square "Sun" "Moon" 0 1 0 90 [] ("Square"%string, mk_info 90 1 "Sq")
  = Ok [].
Proof. vm_compute. reflexivity. Qed.


(** The positions at the refined instant go to [angular_distance]
    unchecked (lines 250-252): a missing one raises [TypeError]. *)
Lemma remeasure_raises_on_missing_position (calc_ut : Z -> Q -> swe_outcome)
  (code1 code2 : Z) (target exact : Q) :
  calculate_position calc_ut code1 exact = None \/
  calculate_position calc_ut code2 exact = None ->
  remeasure calc_ut code1 code2 target exact = Raise TypeError.
Proof.
  unfold remeasure. intros [-> | ->]; [reflexivity |].
  now destruct (calculate_position calc_ut code1 exact).
Qed.

(** C9 fails.  With Sun and Moon available at the scanned instant only,
    [TypeError] leaves [scan_for_aspects]; so it does from a scan of a
    single instant with a provider that never answers, and from every scan
    whose first date is not after its last one, whatever the provider: the
    call of line 222 raises it.  Further down, the positions at the refined
    instant go to [angular_distance] unchecked (lines 250-252), and a
    missing one raises [TypeError]: with Sun and Moon 0.3 degrees apart at
    13:00 and available at no other instant, the pair is a candidate for
    the conjunction, the solver returns the next double after 13:00, no
    position is available there, and these lines raise. *)
Theorem scan_raises_on_missing_refined_position :
  scan_for_aspects Stubs.only_at_noon 2460000 (2460000 + (1 # 16)) 3 5
  = Some (Raise TypeError) /\
  scan_for_aspects Stubs.silent 2460000 2460000 3 5
  = Some (Raise TypeError) /\
  (forall (calc_ut : Z -> Q -> swe_outcome) (start_jd end_jd step_hours : Q)
          (fuel : nat),
     start_jd <= end_jd ->
     scan_for_aspects calc_ut start_jd end_jd step_hours (S fuel)
     = Some (Raise TypeError)) /\
  (forall (calc_ut : Z -> Q -> swe_outcome) (code1 code2 : Z) (target exact : Q),
     calculate_position calc_ut code1 exact = None \/
     calculate_position calc_ut code2 exact = None ->
     remeasure calc_ut code1 code2 target exact = Raise TypeError) /\
  (let exact := find_exact_aspect_time Stubs.only_at_one_pm 0 1 0
                  (fsub Stubs.one_pm (1 # 2)) 1 in
   calculate_position Stubs.only_at_one_pm 0 Stubs.one_pm = Some 0 /\
   calculate_position Stubs.only_at_one_pm 1 Stubs.one_pm = Some (3 # 10) /\
   AngleMath.is_aspect_within_orb (AngleMath.angular_distance 0 (3 # 10)) 0 (1 # 2)
   = true /\
   exact == Stubs.one_pm + 1 / inject_Z (2 ^ 31) /\
   truthy exact = true /\
   calculate_position Stubs.only_at_one_pm 0 exact = None /\
   remeasure Stubs.only_at_one_pm 0 1 0 exact = Raise TypeError).
Proof.
  split; [vm_compute; reflexivity |].
  split; [vm_compute; reflexivity |].
  split; [intros calc_ut start_jd end_jd step_hours fuel;
          apply scan_for_aspects_raises |].
  split; [intros calc_ut code1 code2 target exact;
          apply remeasure_raises_on_missing_position |].
  cbv zeta. repeat split; vm_compute; reflexivity.
Qed.

Lemma solver_error_is_plain_difference_witness :
  longitudes_in_range Stubs.square /\ 0 <= 90 <= 180 /\
  exists e : Q,
    angle_difference_from_target Stubs.square 0 1 90 1 = Fin e /\
    e == Qabs (AngleMath.angular_distance 10 100 - 90) /\
    0 <= e <= 180.
Proof.
  assert (H : 0 <= 90 <= 180) by (split; vm_compute; congruence).
  split; [exact square_in_range | split; [exact H |]].
  exact (SolverFacts.solver_error_is_plain_difference Stubs.square 0 1 90 1
           10 100 square_in_range H eq_refl eq_refl).
Defined.

End ScanFacts.

(** ** The recurrence windows *)

Module DedupFacts.

Import AspectCalculator.

Lemma key_eqb_refl (k : aspect_key) : key_eqb k k = true.
Proof.
  destruct k as [[a b] c]. unfold key_eqb, pair_eqb. cbn [fst snd].
  now rewrite !String.eqb_refl.
Qed.

Lemma for_each_app {A S : Type} (body : S -> A -> res S) (xs ys : list A) (st : S) :
  for_each body (xs ++ ys) st = bind (for_each body xs st) (for_each body ys).
Proof.
  revert st. induction xs as [| x xs IH]; intros st; cbn [for_each app bind];
    [reflexivity |].
  destruct (body st x); cbn [bind]; [apply IH | reflexivity].
Qed.

Lemma for_each_ext_in {A S : Type} (body body' : S -> A -> res S) (xs : list A) :
  (forall st x, In x xs -> body st x = body' st x) ->
  forall st, for_each body xs st = for_each body' xs st.
Proof.
  induction xs as [| x xs IH]; intros H st; cbn [for_each]; [reflexivity |].
  rewrite (H st x (or_introl eq_refl)).
  destruct (body' st x); cbn [bind]; [| reflexivity].
  apply IH. intros st' y Hy. apply H. now right.
Qed.

Section Windows.

Variable hlon_degrees : string -> Q -> Q.
Variable self : calculator.

Lemma aspects_of_pair_date (d : Q) (p1 p2 : string) (a : aspect) :
  In a (aspects_of_pair hlon_degrees self d p1 p2) -> date a = d.
Proof.
  unfold aspects_of_pair.
  destruct (calculate_angle_between_planets _ _) as [s l].
  destruct (String.eqb _ EmptyString); [intros [] |].
  intros [<- | []]. reflexivity.
Qed.

Lemma find_aspects_for_date_date (d : Q) (a : aspect) :
  In a (find_aspects_for_date hlon_degrees self d) -> date a = d.
Proof.
  unfold find_aspects_for_date. induction (self_planets self) as [| p rest IH];
    cbn [aspects_of_names]; [intros [] |].
  rewrite in_app_iff, in_flat_map. intros [(p2 & _ & H) | H].
  - now apply aspects_of_pair_date in H.
  - now apply IH.
Qed.

(** The dated loop feeds the window stage with the candidates of the dates
    it visits, each at its own date. *)
Lemma date_loop_feeds (end_date step : Q) (fuel : nat) :
  forall (current_date : Q) (st : windows * list aspect)
         (r : res (windows * list aspect)),
    date_loop hlon_degrees self end_date step fuel current_date st = Some r ->
    exists dates : list Q,
      r = for_each (fun st a => track self (date a) st a)
            (flat_map (find_aspects_for_date hlon_degrees self) dates) st.
Proof.
  induction fuel as [| fuel IH]; intros cur st r; cbn [date_loop];
    [discriminate |].
  destruct (Qle_bool cur end_date).
  - assert (E : for_each (track self cur) (find_aspects_for_date hlon_degrees self cur) st
                = for_each (fun st a => track self (date a) st a)
                    (find_aspects_for_date hlon_degrees self cur) st).
    { apply for_each_ext_in. intros st' a Ha.
      now rewrite (find_aspects_for_date_date _ _ Ha). }
    rewrite E.
    destruct (for_each (fun st a => track self (date a) st a) _ st)
      as [st' | e] eqn:F.
    + intros H. destruct (IH _ _ _ H) as [dates ->].
      exists (cur :: dates). cbn [flat_map]. now rewrite for_each_app, F.
    + intros [= <-]. exists [cur]. cbn [flat_map]. now rewrite app_nil_r.
  - intros [= <-]. now exists [].
Qed.

Lemma find_exact_aspect_dates_commits (start end_date precision_hours : Q)
  (fuel : nat) (r : res (list aspect)) :
  find_exact_aspect_dates hlon_degrees self start end_date precision_hours fuel
  = Some r ->
  exists dates : list Q,
    r = committed self (flat_map (find_aspects_for_date hlon_degrees self) dates).
Proof.
  unfold find_exact_aspect_dates, committed, feed.
  destruct (date_loop _ _ _ _ _ _ _) as [[st | e] |] eqn:D; [| | discriminate].
  - intros [= <-]. destruct (date_loop_feeds _ _ _ _ _ _ D) as [dates E].
    exists dates. now rewrite <- E.
  - intros [= <-]. destruct (date_loop_feeds _ _ _ _ _ _ D) as [dates E].
    exists dates. now rewrite <- E.
Qed.

(** A candidate of the key of the open window, not later than 30 days
    after the window was last improved. *)
Lemma track_same_key (target : Q) (b c : aspect) :
  lookup (self_aspects self) (aspect_name c) = Ok target ->
  key_of c = key_of b ->
  date c - date b <= window_days ->
  track self (date c) ([(key_of b, opened target b)], []) c
  = Ok ([(key_of b,
          opened target
            (if Qltb (angle_precision target c) (angle_precision target b)
             then c else b))], []).
Proof.
  intros L K D. unfold track. rewrite L. cbn [bind dict_get].
  rewrite K, key_eqb_refl. cbn [opened best_precision last_seen].
  fold (angle_precision target c).
  destruct (Qltb (angle_precision target c) (angle_precision target b)).
  - cbn [dict_set]. now rewrite key_eqb_refl.
  - apply Qltb_ge in D. now rewrite D.
Qed.

Lemma feed_same_key (target : Q) : forall (cs : list aspect) (b : aspect),
  (forall c, In c cs ->
     lookup (self_aspects self) (aspect_name c) = Ok target /\
     key_of c = key_of b) ->
  (forall x y, In x (b :: cs) -> In y (b :: cs) ->
     date y - date x <= window_days) ->
  exists best,
    for_each (fun st a => track self (date a) st a) cs
             ([(key_of b, opened target b)], [])
    = Ok ([(key_of b, opened target best)], []) /\
    In best (b :: cs) /\
    forall c, In c (b :: cs) ->
      angle_precision target best <= angle_precision target c.
Proof.
  induction cs as [| c cs IH]; intros b Hk Hd.
  - exists b. cbn [for_each]. repeat split; [now left |].
    intros c [<- | []]. apply Qle_refl.
  - destruct (Hk c (or_introl eq_refl)) as [L K]. cbn [for_each].
    rewrite (track_same_key target b c L K)
      by (apply Hd; [now left | now right; left]).
    cbn [bind].
    set (b' := if Qltb (angle_precision target c) (angle_precision target b)
               then c else b).
    assert (Kb : key_of b' = key_of b) by (unfold b'; now destruct (Qltb _ _)).
    assert (Inb : In b' (b :: c :: cs)).
    { unfold b'. destruct (Qltb _ _); [right; now left | now left]. }
    assert (Pb : angle_precision target b' <= angle_precision target b /\
                 angle_precision target b' <= angle_precision target c).
    { unfold b'. destruct (Qltb _ _) eqn:E.
      - apply Qltb_lt in E. split; lra.
      - apply Qltb_ge in E. split; lra. }
    destruct (IH b') as (best & F & Hin & Hmin).
    + intros x Hx. destruct (Hk x (or_intror Hx)) as [Lx Kx]. split; congruence.
    + intros x y Hx Hy. apply Hd.
      * destruct Hx as [<- | Hx]; [exact Inb | now right; right].
      * destruct Hy as [<- | Hy]; [exact Inb | now right; right].
    + exists best. rewrite <- Kb. split; [exact F | split].
      * destruct Hin as [<- | Hin]; [exact Inb | now right; right].
      * pose proof (Hmin b' (or_introl eq_refl)) as Hb'.
        intros x [<- | [<- | Hx]]; [lra | lra | apply Hmin; now right].
Qed.

Lemma flush_single (k : aspect_key) (w : window) :
  flush self ([(k, w)], []) = Ok [best_aspect w].
Proof.
  unfold flush, deduplicate_aspects, dict_values. cbn [fst snd map app].
  cbn [sorted_by_date fold_right insert_by_date for_each].
  unfold dedup_step. cbn [dict_get bind app fst]. reflexivity.
Qed.

(** A non-empty sequence of candidates of one key, no two of them more
    than 30 days apart, commits exactly one event.  It is one of the
    candidates, and its [angle_precision], the distance of the recorded
    angle from the angle that [self.aspects] gives for the key, is the
    least among them; a precision is never negative. *)
Theorem one_window_commits_the_best_precision
  (k : aspect_key) (target : Q) (candidates : list aspect) :
  candidates <> [] ->
  lookup (self_aspects self) (snd k) = Ok target ->
  (forall c, In c candidates -> key_of c = k) ->
  (forall a b, In a candidates -> In b candidates ->
     date b - date a <= window_days) ->
  exists best,
    committed self candidates = Ok [best] /\
    In best candidates /\
    forall c, In c candidates ->
      0 <= angle_precision target best <= angle_precision target c.
Proof.
  destruct candidates as [| c0 cs]; [congruence |]. intros _ L K D.
  assert (N : forall c, In c (c0 :: cs) ->
                lookup (self_aspects self) (aspect_name c) = Ok target /\
                key_of c = key_of c0).
  { intros c Hc. rewrite (K c Hc), (K c0 (or_introl eq_refl)). split; [| reflexivity].
    replace (aspect_name c) with (snd (key_of c)) by reflexivity.
    now rewrite (K c Hc). }
  destruct (feed_same_key target cs c0 (fun c Hc => N c (or_intror Hc)) D)
    as (best & F & Hin & Hmin).
  exists best. split; [| split; [exact Hin |]].
  - unfold committed, feed. cbn [for_each].
    assert (T : track self (date c0) ([], []) c0
                = Ok ([(key_of c0, opened target c0)], [])).
    { unfold track. rewrite (proj1 (N c0 (or_introl eq_refl))). reflexivity. }
    rewrite T. cbn [bind]. rewrite F. cbn [bind]. apply flush_single.
  - intros c Hc. split; [apply Qabs_nonneg | now apply Hmin].
Qed.

End Windows.

Lemma one_window_commits_the_best_precision_witness :
  let self := Stubs.slow_planets_calculator in
  let k := (("Jupiter", "Saturn"), "Conjunction")%string in
  let at_day (d angle : Q) :=
    mk_aspect d "Jupiter" "Saturn" "Conjunction" angle 0 angle in
  let candidates := [at_day 0 (1 # 2); at_day 1 (1 # 10); at_day 2 (3 # 10)] in
  committed self candidates = Ok [at_day 1 (1 # 10)] /\
  exists best,
    committed self candidates = Ok [best] /\
    In best candidates /\
    forall c, In c candidates ->
      0 <= angle_precision 0 best <= angle_precision 0 c.
Proof.
  cbv zeta. split; [vm_compute; reflexivity |].
  apply (one_window_commits_the_best_precision Stubs.slow_planets_calculator
           (("Jupiter", "Saturn"), "Conjunction")%string 0).
  - discriminate.
  - reflexivity.
  - intros c [<- | [<- | [<- | []]]]; reflexivity.
  - intros a b [<- | [<- | [<- | []]]] [<- | [<- | [<- | []]]];
      vm_compute; congruence.
Defined.

(** C2 fails for a Gann74 key.  [get_aspect_type] matches Gann74 when the
    long arc is within the orb of 360 - 74 = 286 degrees, and the long arc
    is the angle that the candidate records; the window stage takes
    |angle - 74| for the precision of the candidate.  The Moon passes 74
    degrees from the Sun: the candidate of day 0 has a long arc of 285.25
    degrees, 0.75 degrees from exact, and the candidate of day 1 a long arc
    of 286 degrees, which is exact.  Their precisions are 211.25 and 212,
    so the window keeps the candidate of day 0 and commits it, through
    [find_exact_aspect_dates] with a daily step as well. *)
Theorem gann74_window_commits_the_less_exact :
  let self := Stubs.luminaries_calculator in
  find_aspects_for_date Stubs.gann74_pass self 0 = [Stubs.near_pass] /\
  find_aspects_for_date Stubs.gann74_pass self 1 = [Stubs.exact_pass] /\
  key_of Stubs.near_pass = key_of Stubs.exact_pass /\
  date Stubs.exact_pass - date Stubs.near_pass <= window_days /\
  orb_test (self_orb self) (299 # 4) (angle Stubs.near_pass) ("Gann74"%string, 74)
  = true /\
  Qabs (angle Stubs.near_pass - (360 - 74)) == 3 # 4 /\
  Qabs (angle Stubs.exact_pass - (360 - 74)) == 0 /\
  angle_precision 74 Stubs.near_pass == 845 # 4 /\
  angle_precision 74 Stubs.exact_pass == 212 /\
  committed self [Stubs.near_pass; Stubs.exact_pass] = Ok [Stubs.near_pass] /\
  find_exact_aspect_dates Stubs.gann74_pass self 0 1 24 5
  = Some (Ok [Stubs.near_pass]).
Proof.
  cbv zeta. repeat split; vm_compute; reflexivity || discriminate.
Qed.

(** C1 fails: two Jupiter-Saturn conjunctions 100 days apart, the second
    closer than the first, commit one event only, the second; the same
    through [find_exact_aspect_dates] with a daily step. *)
Theorem later_closer_pass_replaces_the_earlier :
  window_days < date Stubs.second_pass - date Stubs.first_pass /\
  key_of Stubs.first_pass = key_of Stubs.second_pass /\
  committed Stubs.slow_planets_calculator [Stubs.first_pass; Stubs.second_pass]
  = Ok [Stubs.second_pass] /\
  find_aspects_for_date Stubs.two_passes Stubs.slow_planets_calculator 0
  = [Stubs.first_pass] /\
  find_aspects_for_date Stubs.two_passes Stubs.slow_planets_calculator 100
  = [Stubs.second_pass] /\
  exists e,
    find_exact_aspect_dates Stubs.two_passes Stubs.slow_planets_calculator
      0 100 24 200 = Some (Ok [e]) /\
    date e == 100 /\ angle e == 2 # 10.
Proof.
  split; [reflexivity | split; [reflexivity | split; [reflexivity |]]].
  split; [reflexivity | split; [reflexivity |]].
  eexists. split; [vm_compute; reflexivity | split; reflexivity].
Qed.

End DedupFacts.

(** ** The calculator class: candidates, scans and de-duplication *)

Module CalculatorFacts.

Import AspectCalculator.

Lemma lookup_in {V : Type} (d : list (string * V)) (key : string) :
  In key (map fst d) -> exists v, lookup d key = Ok v.
Proof.
  induction d as [| [k v] d IH]; cbn [map lookup fst]; [intros [] |].
  destruct (String.eqb_spec k key) as [-> | N].
  - intros _. now exists v.
  - intros [E | H]; [contradiction | now apply IH].
Qed.

Lemma lookup_in_nodup {V : Type} (d : list (string * V)) (key : string) (v : V) :
  NoDup (map fst d) -> In (key, v) d -> lookup d key = Ok v.
Proof.
  induction d as [| [k w] d IH]; cbn [map lookup fst]; [intros _ [] |].
  intros N H. inversion N as [| ? ? Nk Nd]; subst.
  destruct (String.eqb_spec k key) as [-> | Ne].
  - destruct H as [[= ->] | H]; [reflexivity |].
    exfalso. apply Nk. now apply (in_map fst) in H.
  - destruct H as [[= -> _] | H]; [contradiction | now apply IH].
Qed.

Section Candidates.

Variable hlon_degrees : string -> Q -> Q.
Variable self : calculator.

(** What [aspects_of_pair] records for a pair that matches. *)
Lemma aspects_of_pair_inv (d : Q) (p1 p2 : string) (a : aspect) :
  In a (aspects_of_pair hlon_degrees self d p1 p2) ->
  date a = d /\ planet1 a = p1 /\ planet2 a = p2 /\
  planet1_lon a = hlon_degrees p1 d /\ planet2_lon a = hlon_degrees p2 d /\
  aspect_name a <> EmptyString /\
  exists target : Q,
    In (aspect_name a, target) (self_aspects self) /\
    (if String.eqb (aspect_name a) "Gann74"
     then angle a = snd (calculate_angle_between_planets
                           (hlon_degrees p1 d) (hlon_degrees p2 d)) /\
          Qabs (angle a - (360 - target)) <= self_orb self
     else angle a = fst (calculate_angle_between_planets
                           (hlon_degrees p1 d) (hlon_degrees p2 d)) /\
          Qabs (angle a - target) <= self_orb self).
Proof.
  unfold aspects_of_pair.
  destruct (calculate_angle_between_planets _ _) as [s l]. cbn [fst snd].
  pose proof (MatcherFacts.get_aspect_type_loop_first
                (self_aspects self) (self_orb self) s l) as F.
  fold (get_aspect_type self s l) in F.
  destruct (String.eqb_spec (get_aspect_type self s l) EmptyString) as [E | N];
    [intros [] |].
  intros [<- | []]. cbn [date planet1 planet2 planet1_lon planet2_lon
                         aspect_name angle].
  repeat split; trivial.
  destruct F as [(pre & [n t] & post & Ei & T & Hn & _) | [_ E]];
    [| contradiction].
  cbn [fst] in Hn. exists t. rewrite <- Hn. split.
  - rewrite Ei. apply in_or_app. right. now left.
  - unfold orb_test in T.
    destruct (String.eqb n "Gann74"); split; trivial; now apply Qle_bool_iff.
Qed.

Lemma aspects_of_names_inv (d : Q) (names : list string) (a : aspect) :
  In a (aspects_of_names hlon_degrees self d names) ->
  exists p1 p2,
    In (p1, p2) (Scanner.pairs_of names) /\
    In a (aspects_of_pair hlon_degrees self d p1 p2).
Proof.
  induction names as [| p rest IH];
    cbn [aspects_of_names Scanner.pairs_of]; [intros [] |].
  rewrite in_app_iff, in_flat_map. intros [(p2 & Hp & H) | H].
  - exists p, p2. split; [| exact H].
    apply in_or_app. left. now apply in_map.
  - destruct (IH H) as (p1 & p2 & Hp & Ha). exists p1, p2.
    split; [apply in_or_app; now right | exact Ha].
Qed.




Lemma candidate_target (d : Q) (a : aspect) :
  NoDup (map fst (self_aspects self)) ->
  In a (find_aspects_for_date hlon_degrees self d) ->
  exists target : Q,
    lookup (self_aspects self) (aspect_name a) = Ok target /\
    (if String.eqb (aspect_name a) "Gann74"
     then Qabs (angle a - (360 - target)) <= self_orb self
     else angle_precision target a <= self_orb self).
Proof.
  intros N H. apply aspects_of_names_inv in H.
  destruct H as (p1 & p2 & _ & Ha). apply aspects_of_pair_inv in Ha.
  destruct Ha as (_ & _ & _ & _ & _ & _ & t & Hin & Ht).
  exists t. split; [now apply lookup_in_nodup |].
  destruct (String.eqb (aspect_name a) "Gann74"); apply Ht.
Qed.

(** With distinct catalog names, every candidate of
    [find_aspects_for_date] has a catalog angle; its recorded angle is
    within the orb of that angle, except for Gann74, whose recorded long
    arc is within the orb of 360 minus that angle. *)
Theorem candidate_angle_is_within_orb (d : Q) (a : aspect) :
  NoDup (map fst (self_aspects self)) ->
  In a (find_aspects_for_date hlon_degrees self d) ->
  exists target : Q,
    lookup (self_aspects self) (aspect_name a) = Ok target /\
    (if String.eqb (aspect_name a) "Gann74"
     then Qabs (angle a - (360 - target)) <= self_orb self
     else angle_precision target a <= self_orb self).
Proof. apply candidate_target. Qed.

End Candidates.

Lemma default_names_distinct :
  NoDup (map fst (self_aspects default_calculator)).
Proof.
  cbn. repeat (constructor; [cbn; intuition discriminate |]). constructor.
Qed.

Lemma candidate_angle_is_within_orb_witness :
  NoDup (map fst (self_aspects default_calculator)) /\
  exists a,
    In a (find_aspects_for_date Stubs.gann74_sky default_calculator 0) /\
    aspect_name a = "Gann74"%string /\ angle a == 286 /\
    exists target : Q,
      lookup (self_aspects default_calculator) (aspect_name a) = Ok target /\
      (if String.eqb (aspect_name a) "Gann74"
       then Qabs (angle a - (360 - target)) <= self_orb default_calculator
       else angle_precision target a <= self_orb default_calculator).
Proof.
  split; [exact default_names_distinct |].
  eexists. split; [left; reflexivity | split; [reflexivity | split; [reflexivity |]]].
  apply (candidate_angle_is_within_orb Stubs.gann74_sky default_calculator 0).
  - exact default_names_distinct.
  - left. reflexivity.
Defined.

(** For a Gann74 candidate of the default calculator, the precision that
    [find_exact_aspect_dates] compares, |angle - 74| with the recorded long
    arc as angle, is between 211 and 213 degrees, and it grows with the
    long arc. *)
Theorem gann74_precision_is_about_212
  (hlon_degrees : string -> Q -> Q) (d : Q) (a : aspect) :
  In a (find_aspects_for_date hlon_degrees default_calculator d) ->
  aspect_name a = "Gann74"%string ->
  lookup (self_aspects default_calculator) (aspect_name a) = Ok 74 /\
  211 <= angle_precision 74 a <= 213 /\
  angle_precision 74 a == angle a - 74.
Proof.
  intros H G.
  destruct (candidate_target hlon_degrees default_calculator d a
              default_names_distinct H) as (t & L & T).
  rewrite G in *. cbn in L. injection L as <-.
  cbn [String.eqb Ascii.eqb Bool.eqb self_orb default_calculator] in T.
  split; [reflexivity |].
  apply Qabs_Qle_condition in T. unfold angle_precision.
  rewrite Qabs_pos by lra. split; [split |]; lra.
Qed.

Lemma gann74_precision_is_about_212_witness :
  exists a,
    In a (find_aspects_for_date Stubs.gann74_sky default_calculator 0) /\
    aspect_name a = "Gann74"%string /\
    lookup (self_aspects default_calculator) (aspect_name a) = Ok 74 /\
    211 <= angle_precision 74 a <= 213 /\
    angle_precision 74 a == angle a - 74.
Proof.
  eexists. split; [left; reflexivity | split; [reflexivity |]].
  apply (gann74_precision_is_about_212 Stubs.gann74_sky 0);
    [left; reflexivity | reflexivity].
Defined.

(** *** Dictionaries keyed by aspect keys *)

Lemma key_eqb_eq (k k' : aspect_key) : key_eqb k k' = true <-> k = k'.
Proof.
  destruct k as [[a b] c], k' as [[a' b'] c']. unfold key_eqb, pair_eqb.
  cbn [fst snd]. rewrite !andb_true_iff, !String.eqb_eq.
  split; [intros [[-> ->] ->]; reflexivity | intros [= -> -> ->]; auto].
Qed.

Lemma key_eqb_refl_c (k : aspect_key) : key_eqb k k = true.
Proof. now apply key_eqb_eq. Qed.

Lemma key_eqb_neq (k k' : aspect_key) : key_eqb k k' = false <-> k <> k'.
Proof.
  rewrite <- key_eqb_eq. destruct (key_eqb k k'); intuition congruence.
Qed.

Lemma dict_get_set {V : Type} (d : list (aspect_key * V)) (k k' : aspect_key) (v : V) :
  dict_get key_eqb (dict_set key_eqb d k v) k'
  = if key_eqb k k' then Some v else dict_get key_eqb d k'.
Proof.
  induction d as [| [k0 v0] d IH]; cbn [dict_set dict_get]; [reflexivity |].
  destruct (key_eqb k0 k) eqn:E0; cbn [dict_get].
  - apply key_eqb_eq in E0. subst k0.
    destruct (key_eqb k k'); reflexivity.
  - rewrite IH. destruct (key_eqb k0 k') eqn:E1; [| reflexivity].
    apply key_eqb_eq in E1. subst k0.
    destruct (key_eqb k k') eqn:E2; [| reflexivity].
    apply key_eqb_eq in E2. subst k'. apply key_eqb_neq in E0. contradiction.
Qed.

(** *** Sorting by date *)

Lemma insert_by_date_in (a x : aspect) (l : list aspect) :
  In x (insert_by_date a l) <-> x = a \/ In x l.
Proof.
  induction l as [| b l IH]; cbn [insert_by_date].
  - cbn. intuition.
  - destruct (Qle_bool (date a) (date b)); cbn [In]; [intuition |].
    rewrite IH. intuition.
Qed.

Lemma sorted_by_date_in (x : aspect) (l : list aspect) :
  In x (sorted_by_date l) <-> In x l.
Proof.
  unfold sorted_by_date. induction l as [| a l IH]; cbn [fold_right];
    [reflexivity |].
  rewrite insert_by_date_in, IH. cbn. intuition.
Qed.

Lemma sorted_by_date_length (l : list aspect) :
  List.length (sorted_by_date l) = List.length l.
Proof.
  unfold sorted_by_date. induction l as [| a l IH]; cbn [fold_right];
    [reflexivity |].
  cbn [List.length]. rewrite <- IH. generalize (fold_right insert_by_date [] l).
  intros m. induction m as [| b m IHm]; cbn [insert_by_date]; [reflexivity |].
  destruct (Qle_bool (date a) (date b)); cbn [List.length]; [reflexivity |].
  now rewrite IHm.
Qed.

Lemma insert_by_date_sorted (a : aspect) (l : list aspect) :
  StronglySorted not_later l -> StronglySorted not_later (insert_by_date a l).
Proof.
  induction l as [| b l IH]; intros S; cbn [insert_by_date].
  - repeat constructor.
  - inversion S as [| ? ? Sl Fb]; subst.
    destruct (Qle_bool (date a) (date b)) eqn:E.
    + apply Qle_bool_iff in E. constructor; [exact S |].
      constructor; [exact E |].
      eapply Forall_impl; [| exact Fb]. unfold not_later. intros y Hy. lra.
    + apply Qle_bool_gt in E. constructor; [now apply IH |].
      apply Forall_forall. intros y Hy. apply insert_by_date_in in Hy.
      destruct Hy as [-> | Hy].
      * unfold not_later. lra.
      * rewrite Forall_forall in Fb. now apply Fb.
Qed.

Lemma sorted_by_date_sorted (l : list aspect) :
  StronglySorted not_later (sorted_by_date l).
Proof.
  unfold sorted_by_date. induction l as [| a l IH]; cbn [fold_right].
  - constructor.
  - now apply insert_by_date_sorted.
Qed.

Lemma sorted_filter (f : aspect -> bool) (l : list aspect) :
  StronglySorted not_later l -> StronglySorted not_later (filter f l).
Proof.
  induction 1 as [| a l S IH F]; cbn [filter]; [constructor |].
  destruct (f a); [| exact IH].
  constructor; [exact IH |].
  apply Forall_forall. intros y Hy. apply filter_In in Hy.
  rewrite Forall_forall in F. now apply F.
Qed.

Lemma sorted_snoc (a : aspect) (l : list aspect) :
  StronglySorted not_later l -> (forall x, In x l -> date x <= date a) ->
  StronglySorted not_later (l ++ [a]).
Proof.
  induction 1 as [| b l S IH F]; intros H; cbn [app].
  - repeat constructor.
  - constructor.
    + apply IH. intros x Hx. apply H. now right.
    + apply Forall_app. split; [exact F |].
      constructor; [| constructor]. apply H. now left.
Qed.

Lemma ordpairs_filter {A : Type} (R : A -> A -> Prop) (f : A -> bool) (l : list A) :
  ForallOrdPairs R l -> ForallOrdPairs R (filter f l).
Proof.
  induction 1 as [| a l F _ IH]; cbn [filter]; [constructor |].
  destruct (f a); [| exact IH].
  constructor; [| exact IH].
  apply Forall_forall. intros y Hy. apply filter_In in Hy.
  rewrite Forall_forall in F. now apply F.
Qed.

Lemma ordpairs_snoc {A : Type} (R : A -> A -> Prop) (a : A) (l : list A) :
  ForallOrdPairs R l -> (forall x, In x l -> R x a) ->
  ForallOrdPairs R (l ++ [a]).
Proof.
  induction 1 as [| b l F _ IH]; intros H; cbn [app].
  - repeat constructor.
  - constructor.
    + apply Forall_app. split; [exact F |].
      constructor; [| constructor]. apply H. now left.
    + apply IH. intros x Hx. apply H. now right.
Qed.

(** *** deduplicate_aspects *)

Section Deduplicate.

Variable self : calculator.

Let min_days : Q := self_min_days_between_aspects self.

(** The two outcomes of one turn of the loop that does not raise: the
    entry is dropped, or it is appended, after the removal of the entries
    of its key within a day of the tracked date when it replaces one. *)
Lemma dedup_step_cases (ded : list aspect) (tr : tracking) (a : aspect)
  (r : list aspect * tracking) :
  dedup_step self (ded, tr) a = Ok r ->
  (r = (ded, tr) /\
   exists d ang, dict_get key_eqb tr (key_of a) = Some (d, ang) /\
                 date a - d < min_days)
  \/
  (exists ded',
     r = (ded' ++ [a], dict_set key_eqb tr (key_of a) (date a, angle a)) /\
     ((ded' = ded /\ dict_get key_eqb tr (key_of a) = None) \/
      (ded' = ded /\
       exists d ang, dict_get key_eqb tr (key_of a) = Some (d, ang) /\
                     min_days <= date a - d) \/
      (exists d ang,
         dict_get key_eqb tr (key_of a) = Some (d, ang) /\
         ded' = filter (fun x => negb (key_eqb (key_of x) (key_of a)
                                       && Qltb (Qabs (date x - d)) 1)) ded))).
Proof.
  unfold dedup_step. fold (key_of a).
  destruct (dict_get key_eqb tr (key_of a)) as [[d ang] |] eqn:G.
  - fold min_days. destruct (Qltb (date a - d) min_days) eqn:D.
    + apply Qltb_lt in D.
      destruct (lookup (self_aspects self) (aspect_name a)) as [t |];
        cbn [bind]; [| discriminate].
      destruct (Qltb _ _); cbn [bind].
      * intros [= <-]. right. eexists. split; [reflexivity |].
        right; right. exists d, ang. split; reflexivity.
      * intros [= <-]. left. split; [reflexivity |]. now exists d, ang.
    + apply Qltb_ge in D. cbn [bind]. intros [= <-]. right. exists ded.
      split; [reflexivity |]. right; left. split; [reflexivity |].
      now exists d, ang.
  - cbn [bind]. intros [= <-]. right. exists ded. split; [reflexivity |].
    left. now split.
Qed.

Lemma dedup_step_keeps_invariant (ded : list aspect) (tr : tracking)
  (a : aspect) (rest : list aspect) (r : list aspect * tracking) :
  dedup_invariant min_days (a :: rest) (ded, tr) ->
  Forall (not_later a) rest ->
  dedup_step self (ded, tr) a = Ok r ->
  dedup_invariant min_days rest r.
Proof.
  intros (I1 & I2 & I3 & I4 & I5 & I6) Ha H. cbn [fst snd] in *.
  rewrite Forall_forall in Ha. unfold not_later in Ha.
  apply dedup_step_cases in H.
  destruct H as [[-> _] | (ded' & -> & C)].
  - refine (conj _ (conj _ (conj _ (conj _ (conj _ _))))); cbn [fst snd];
      trivial.
    + intros x y Hx Hy. apply I4; [exact Hx | now right].
    + intros k d ang Hk y Hy. apply (I5 k d ang Hk). now right.
  - assert (P : incl ded' ded /\ ForallOrdPairs (spaced min_days) ded' /\
                StronglySorted not_later ded' /\
                forall x, In x ded' -> key_of x = key_of a ->
                          min_days <= date a - date x).
    { destruct C as [[-> G] | [[-> (d & ang & G & D)] | (d & ang & G & ->)]].
      - repeat split; trivial; [apply incl_refl |].
        intros x Hx K. exfalso. exact (I2 _ G x Hx K).
      - repeat split; trivial; [apply incl_refl |].
        intros x Hx K. destruct (I3 _ _ _ G x Hx K) as [L _]. lra.
      - repeat split.
        + intros x Hx. now apply filter_In in Hx.
        + now apply ordpairs_filter.
        + now apply sorted_filter.
        + intros x Hx K. apply filter_In in Hx. destruct Hx as [Hx F].
          apply negb_true_iff in F.
          assert (E : key_eqb (key_of x) (key_of a) = true) by now apply key_eqb_eq.
          rewrite E in F. cbn [andb] in F. apply Qltb_ge in F.
          destruct (I3 _ _ _ G x Hx K) as [_ [N | M]].
          * exfalso. apply (Qlt_irrefl 1). eapply Qle_lt_trans; eassumption.
          * pose proof (I5 _ _ _ G a (or_introl eq_refl)). lra. }
    destruct P as (Pi & Po & Ps & Pk).
    assert (Pd : forall x, In x ded' -> date x <= date a).
    { intros x Hx. apply I4; [now apply Pi | now left]. }
    refine (conj _ (conj _ (conj _ (conj _ (conj _ _))))); cbn [fst snd].
    + apply ordpairs_snoc; [exact Po |]. intros x Hx K. now apply Pk.
    + intros k Hk x Hx. rewrite dict_get_set in Hk.
      destruct (key_eqb (key_of a) k) eqn:E; [discriminate |].
      apply key_eqb_neq in E. apply in_app_or in Hx.
      destruct Hx as [Hx | [<- | []]]; [| exact E].
      apply (I2 _ Hk). now apply Pi.
    + intros k d ang Hk x Hx K. rewrite dict_get_set in Hk.
      apply in_app_or in Hx.
      destruct (key_eqb (key_of a) k) eqn:E.
      * injection Hk as <- <-. apply key_eqb_eq in E.
        destruct Hx as [Hx | [<- | []]].
        -- split; [now apply Pd |]. right. apply Pk; congruence.
        -- split; [apply Qle_refl |]. left.
           assert (Z0 : date a - date a == 0) by ring.
           rewrite (Qabs_wd _ _ Z0). reflexivity.
      * apply key_eqb_neq in E. destruct Hx as [Hx | [<- | []]];
          [| congruence].
        now apply (I3 _ _ _ Hk x (Pi _ Hx) K).
    + intros x y Hx Hy. apply in_app_or in Hx.
      destruct Hx as [Hx | [<- | []]]; [| now apply Ha].
      apply I4; [now apply Pi | now right].
    + intros k d ang Hk y Hy. rewrite dict_get_set in Hk.
      destruct (key_eqb (key_of a) k).
      * injection Hk as <- <-. now apply Ha.
      * apply (I5 _ _ _ Hk). now right.
    + now apply sorted_snoc.
Qed.

Lemma dedup_run_keeps_invariant (l : list aspect) :
  forall (st r : list aspect * tracking),
    StronglySorted not_later l ->
    dedup_invariant min_days l st ->
    for_each (dedup_step self) l st = Ok r ->
    dedup_invariant min_days [] r.
Proof.
  induction l as [| a l IH]; intros st r S I; cbn [for_each].
  - now intros [= <-].
  - inversion S as [| ? ? Sl Fa]; subst.
    destruct st as [ded tr].
    destruct (dedup_step self (ded, tr) a) as [st' |] eqn:E; cbn [bind];
      [| discriminate].
    apply (IH st' r Sl).
    now apply (dedup_step_keeps_invariant ded tr a l st').
Qed.

(** What is kept comes from the input or was kept before, grows by at
    most one entry a turn, and does not become empty. *)
Lemma dedup_run_basic (l : list aspect) :
  forall (ded : list aspect) (tr : tracking) (r : list aspect * tracking),
    for_each (dedup_step self) l (ded, tr) = Ok r ->
    (forall x, In x (fst r) -> In x ded \/ In x l) /\
    (List.length (fst r) <= List.length ded + List.length l)%nat /\
    (ded <> [] -> fst r <> []) /\
    (tr = [] -> l <> [] -> fst r <> []).
Proof.
  induction l as [| a l IH]; intros ded tr r; cbn [for_each].
  - intros [= <-]. cbn [fst List.length].
    repeat split; auto; try lia; try (intros _ N; now contradiction N).
  - destruct (dedup_step self (ded, tr) a) as [[ded1 tr1] |] eqn:E;
      cbn [bind]; [| discriminate].
    intros H. destruct (IH ded1 tr1 r H) as (Hin & Hlen & Hne & _).
    apply dedup_step_cases in E.
    destruct E as [[[= -> ->] (d & ang & G & _)] | (ded' & [= -> ->] & C)].
    + repeat split.
      * intros x Hx. destruct (Hin x Hx); [now left | right; now right].
      * cbn [List.length]. lia.
      * exact Hne.
      * intros -> _. discriminate.
    + assert (Pi : incl ded' ded /\ (List.length ded' <= List.length ded)%nat).
      { destruct C as [[-> _] | [[-> _] | (d & ang & _ & ->)]];
          try (split; [apply incl_refl | lia]).
        split; [intros x Hx; now apply filter_In in Hx | apply filter_length_le]. }
      destruct Pi as [Pi Pl].
      assert (Ne : ded' ++ [a] <> []) by (destruct ded'; discriminate).
      repeat split.
      * intros x Hx. destruct (Hin x Hx) as [Hx' | Hx']; [| right; now right].
        apply in_app_or in Hx'. destruct Hx' as [Hx' | [<- | []]];
          [left; now apply Pi | right; now left].
      * rewrite length_app in Hlen. cbn [List.length] in *. lia.
      * intros _. now apply Hne.
      * intros _ _. now apply Hne.
Qed.

Lemma empty_state_invariant (l : list aspect) :
  dedup_invariant min_days l ([], []).
Proof.
  refine (conj _ (conj _ (conj _ (conj _ (conj _ _))))); cbn [fst snd].
  - constructor.
  - intros k _ x [].
  - intros k d ang H. discriminate.
  - intros x y [].
  - intros k d ang H. discriminate.
  - constructor.
Qed.

(** Whenever [deduplicate_aspects] returns, what it returns is made of
    input entries, is not longer than the input, is in date order, and is
    empty only for an empty input. *)
Theorem deduplicate_aspects_selects (aspects result : list aspect) :
  deduplicate_aspects self aspects = Ok result ->
  (forall x, In x result -> In x aspects) /\
  (List.length result <= List.length aspects)%nat /\
  StronglySorted not_later result /\
  (aspects <> [] -> result <> []).
Proof.
  unfold deduplicate_aspects. destruct aspects as [| a l];
    [intros [= <-]; repeat split; auto; constructor |].
  destruct (for_each (dedup_step self) (sorted_by_date (a :: l)) ([], []))
    as [r |] eqn:E; cbn [bind]; [| discriminate].
  intros [= <-].
  destruct (dedup_run_basic _ _ _ _ E) as (Hin & Hlen & _ & Hne).
  pose proof (dedup_run_keeps_invariant _ _ _ (sorted_by_date_sorted (a :: l))
                (empty_state_invariant _) E) as (_ & _ & _ & _ & _ & S).
  repeat split.
  - intros x Hx. destruct (Hin x Hx) as [[] | H].
    apply (proj1 (sorted_by_date_in x (a :: l))). exact H.
  - rewrite sorted_by_date_length in Hlen.
    cbn [List.length] in *. lia.
  - exact S.
  - intros _. apply Hne; [reflexivity |].
    intros N. apply (f_equal (@List.length aspect)) in N.
    rewrite sorted_by_date_length in N. discriminate.
Qed.

(** Whenever [deduplicate_aspects] returns, any two entries it keeps for
    the same pair of planets and the same aspect are at least
    [min_days_between_aspects] apart, the later one coming later in the
    list. *)
Theorem deduplicate_aspects_spaces_same_key (aspects result : list aspect) :
  deduplicate_aspects self aspects = Ok result ->
  ForallOrdPairs (spaced (self_min_days_between_aspects self)) result.
Proof.
  unfold deduplicate_aspects. destruct aspects as [| a l];
    [intros [= <-]; constructor |].
  destruct (for_each (dedup_step self) (sorted_by_date (a :: l)) ([], []))
    as [r |] eqn:E; cbn [bind]; [| discriminate].
  intros [= <-].
  now pose proof (dedup_run_keeps_invariant _ _ _ (sorted_by_date_sorted (a :: l))
                    (empty_state_invariant _) E) as (S & _).
Qed.

End Deduplicate.

(** *** The window stage and find_exact_aspect_dates *)

Lemma dict_get_in {V : Type} (d : list (aspect_key * V)) (k : aspect_key) (v : V) :
  dict_get key_eqb d k = Some v -> In (k, v) d.
Proof.
  induction d as [| [k0 v0] d IH]; cbn [dict_get]; [discriminate |].
  destruct (key_eqb k0 k) eqn:E.
  - apply key_eqb_eq in E. intros [= ->]. left. now subst.
  - intros H. right. now apply IH.
Qed.

Lemma dict_set_forall {V : Type} (P : aspect_key * V -> Prop)
  (d : list (aspect_key * V)) (k : aspect_key) (v : V) :
  Forall P d -> P (k, v) -> Forall P (dict_set key_eqb d k v).
Proof.
  intros F Pv. induction F as [| [k0 v0] d P0 F IH]; cbn [dict_set].
  - repeat constructor. exact Pv.
  - destruct (key_eqb k0 k) eqn:E.
    + apply key_eqb_eq in E. subst k0. now constructor.
    + now constructor.
Qed.

Lemma dict_set_keys {V : Type} (d : list (aspect_key * V)) (k x : aspect_key) (v : V) :
  In x (map fst (dict_set key_eqb d k v)) -> In x (map fst d) \/ x = k.
Proof.
  induction d as [| [k0 v0] d IH]; cbn [dict_set map fst In].
  - intros [<- | []]. now right.
  - destruct (key_eqb k0 k); cbn [map fst In]; [intuition |].
    intros [H | H]; [now left; left |].
    destruct (IH H); [left; now right | now right].
Qed.

Lemma dict_set_nodup {V : Type} (d : list (aspect_key * V)) (k : aspect_key) (v : V) :
  NoDup (map fst d) -> NoDup (map fst (dict_set key_eqb d k v)).
Proof.
  induction d as [| [k0 v0] d IH]; cbn [dict_set map fst]; intros N.
  - repeat constructor. intros [].
  - inversion N as [| ? ? Nk Nd]; subst.
    destruct (key_eqb k0 k) eqn:E; cbn [map fst]; [now constructor |].
    constructor; [| now apply IH].
    intros H. apply dict_set_keys in H. destruct H as [H | ->];
      [contradiction |].
    apply key_eqb_neq in E. now apply E.
Qed.

Lemma for_each_total {A S : Type} (I : S -> Prop) (body : S -> A -> res S)
  (xs : list A) :
  (forall st x, In x xs -> I st -> exists st', body st x = Ok st' /\ I st') ->
  forall st, I st -> exists st', for_each body xs st = Ok st' /\ I st'.
Proof.
  induction xs as [| x xs IH]; intros H st Hi; cbn [for_each].
  - now exists st.
  - destruct (H st x (or_introl eq_refl) Hi) as (st1 & -> & H1). cbn [bind].
    apply IH; [| exact H1]. intros st' y Hy. apply H. now right.
Qed.

Lemma steps_exceed (start_q end_q step : Q) :
  0 < step -> exists n : nat, end_q < start_q + inject_Z (Z.of_nat n) * step.
Proof.
  intros Hs. set (c := Qceiling ((end_q - start_q) / step)).
  exists (Z.to_nat (Z.max 0 c + 1)). rewrite Z2Nat.id by lia.
  assert (Hc : (end_q - start_q) / step < inject_Z (Z.max 0 c + 1)).
  { eapply Qle_lt_trans; [apply Qle_ceiling |]. fold c.
    rewrite <- Zlt_Qlt. lia. }
  apply (Qmult_lt_r _ _ _ Hs) in Hc.
  assert (E : (end_q - start_q) / step * step == end_q - start_q).
  { field. intros Hz. rewrite Hz in Hs. now apply (Qlt_irrefl 0). }
  rewrite E in Hc. lra.
Qed.

Section WindowStage.

Variable self : calculator.

(** The outcomes of one turn of the loop of [find_exact_aspect_dates]
    that does not raise. *)
Lemma track_cases (d : Q) (ws : windows) (exact : list aspect) (a : aspect)
  (r : windows * list aspect) :
  track self d (ws, exact) a = Ok r ->
  exists target : Q,
    lookup (self_aspects self) (aspect_name a) = Ok target /\
    (r = (dict_set key_eqb ws (key_of a)
            (mk_window (angle_precision target a) a d), exact) \/
     (exists w, dict_get key_eqb ws (key_of a) = Some w /\
        r = (dict_set key_eqb ws (key_of a)
               (mk_window (angle_precision target a) a d),
             exact ++ [best_aspect w])) \/
     r = (ws, exact)).
Proof.
  unfold track.
  destruct (lookup (self_aspects self) (aspect_name a)) as [t |]; cbn [bind];
    [| discriminate].
  fold (angle_precision t a). intros H. exists t. split; [reflexivity |].
  destruct (dict_get key_eqb ws (key_of a)) as [w |].
  - destruct (Qltb (angle_precision t a) (best_precision w)).
    + injection H as <-. now left.
    + destruct (Qltb window_days (d - last_seen w)); injection H as <-.
      * right; left. now exists w.
      * now right; right.
  - injection H as <-. now left.
Qed.

Lemma track_total (d : Q) (st : windows * list aspect) (a : aspect) (t : Q) :
  lookup (self_aspects self) (aspect_name a) = Ok t ->
  exists r, track self d st a = Ok r.
Proof.
  intros L. destruct st as [ws exact]. unfold track. rewrite L. cbn [bind].
  destruct (dict_get key_eqb ws (key_of a)) as [w |]; [| eexists; reflexivity].
  destruct (Qltb _ (best_precision w)); [eexists; reflexivity |].
  destruct (Qltb window_days _); eexists; reflexivity.
Qed.

(** A property of the candidates holds of every best candidate of an open
    window and of every committed entry. *)
Lemma track_all (P : aspect -> Prop) (d : Q) (ws : windows)
  (exact : list aspect) (a : aspect) (r : windows * list aspect) :
  P a ->
  Forall (fun entry => P (best_aspect (snd entry))) ws -> Forall P exact ->
  track self d (ws, exact) a = Ok r ->
  Forall (fun entry => P (best_aspect (snd entry))) (fst r) /\ Forall P (snd r).
Proof.
  intros Pa Fw Fe H. apply track_cases in H.
  destruct H as (t & _ & [-> | [(w & G & ->) | ->]]); cbn [fst snd].
  - split; [| exact Fe]. now apply dict_set_forall.
  - split; [now apply dict_set_forall |].
    apply Forall_app. split; [exact Fe |]. constructor; [| constructor].
    apply dict_get_in in G. rewrite Forall_forall in Fw.
    exact (Fw _ G).
  - now split.
Qed.

(** After the window stage has been fed a sequence of candidates, each at
    its own date, every open window is filed under the key of its best
    candidate, holds that candidate's precision, and has as [last_seen] the
    date of its best candidate (not the date of the last candidate seen);
    there is one window for each key; and every committed entry is one of
    the candidates. *)
Theorem open_windows_follow_their_best (candidates : list aspect)
  (ws : windows) (exact : list aspect) :
  feed self candidates = Ok (ws, exact) ->
  Forall (window_of_best self candidates) ws /\
  NoDup (map fst ws) /\
  forall e, In e exact -> In e candidates.
Proof.
  unfold feed.
  assert (G : forall cs st r,
             (forall c, In c cs -> In c candidates) ->
             Forall (window_of_best self candidates) (fst st) /\
             NoDup (map fst (fst st)) /\
             (forall e, In e (snd st) -> In e candidates) ->
             for_each (fun st a => track self (date a) st a) cs st = Ok r ->
             Forall (window_of_best self candidates) (fst r) /\
             NoDup (map fst (fst r)) /\
             (forall e, In e (snd r) -> In e candidates)).
  { induction cs as [| c cs IH]; intros [w0 e0] r Hc I; cbn [for_each].
    - now intros [= <-].
    - destruct (track self (date c) (w0, e0) c) as [st1 |] eqn:T; cbn [bind];
        [| discriminate].
      apply IH; [intros x Hx; apply Hc; now right |].
      destruct I as (Iw & In_ & Ie). cbn [fst snd] in *.
      apply track_cases in T.
      assert (Wc : forall t, lookup (self_aspects self) (aspect_name c) = Ok t ->
                   window_of_best self candidates
                     (key_of c, mk_window (angle_precision t c) c (date c))).
      { intros t L. unfold window_of_best. cbn [fst snd best_aspect last_seen
                                                 best_precision].
        repeat split; [apply Hc; now left |]. now exists t. }
      destruct T as (t & L & [-> | [(w & G & ->) | ->]]); cbn [fst snd].
      + repeat split; [apply dict_set_forall; auto | now apply dict_set_nodup
                      | exact Ie].
      + repeat split; [apply dict_set_forall; auto | now apply dict_set_nodup |].
        intros e He. apply in_app_or in He. destruct He as [He | [<- | []]];
          [now apply Ie |].
        apply dict_get_in in G. rewrite Forall_forall in Iw.
        now destruct (Iw _ G) as (_ & _ & Hin & _).
      + now repeat split. }
  intros H. apply (G candidates ([], []) (ws, exact)); [auto | | exact H].
  cbn [fst snd]. repeat split; [constructor | constructor | intros e []].
Qed.

End WindowStage.

Lemma open_windows_follow_their_best_witness :
  let at_day (d angle : Q) :=
    mk_aspect d "Jupiter" "Saturn" "Conjunction" angle 0 angle in
  let candidates := [at_day 0 (2 # 10); at_day 1 (4 # 10); at_day 40 (5 # 10);
                     at_day 41 (6 # 10)] in
  exists ws exact,
    feed default_calculator candidates = Ok (ws, exact) /\
    map (fun entry => last_seen (snd entry)) ws = [40] /\
    exact = [at_day 0 (2 # 10)] /\
    Forall (window_of_best default_calculator candidates) ws /\
    NoDup (map fst ws) /\
    forall e, In e exact -> In e candidates.
Proof.
  cbv zeta. do 2 eexists.
  split; [vm_compute; reflexivity | split; [reflexivity | split; [reflexivity |]]].
  apply (open_windows_follow_their_best default_calculator).
  vm_compute. reflexivity.
Defined.

Section ExactDates.

Variable hlon_degrees : string -> Q -> Q.
Variable self : calculator.
Variables start end_date : Q.

(** A candidate reported for its own date, a date of the scanned range. *)
Let reported (a : aspect) : Prop :=
  start <= date a <= end_date /\
  In a (find_aspects_for_date hlon_degrees self (date a)).

Lemma reported_has_target (a : aspect) :
  In a (find_aspects_for_date hlon_degrees self (date a)) ->
  exists t, lookup (self_aspects self) (aspect_name a) = Ok t.
Proof.
  intros H. apply aspects_of_names_inv in H.
  destruct H as (p1 & p2 & _ & Ha). apply aspects_of_pair_inv in Ha.
  destruct Ha as (_ & _ & _ & _ & _ & _ & t & Hin & _).
  apply lookup_in. now apply (in_map fst) in Hin.
Qed.

Lemma dedup_step_total (st : list aspect * tracking) (a : aspect) (t : Q) :
  lookup (self_aspects self) (aspect_name a) = Ok t ->
  exists r, dedup_step self st a = Ok r.
Proof.
  intros L. destruct st as [ded tr]. unfold dedup_step. rewrite L.
  destruct (dict_get key_eqb tr _) as [[d ang] |]; cbn [bind];
    [| eexists; reflexivity].
  destruct (Qltb (date a - d) _); cbn [bind]; [| eexists; reflexivity].
  destruct (Qltb _ _); cbn [bind]; eexists; reflexivity.
Qed.

Lemma flush_reported (ws : windows) (exact : list aspect) :
  Forall (fun entry => reported (best_aspect (snd entry))) ws ->
  Forall reported exact ->
  exists events,
    flush self (ws, exact) = Ok events /\ Forall reported events /\
    ForallOrdPairs (spaced (self_min_days_between_aspects self)) events.
Proof.
  intros Fw Fe. unfold flush. cbn [fst snd].
  set (l := exact ++ map best_aspect (dict_values ws)).
  assert (Fl : Forall reported l).
  { apply Forall_app. split; [exact Fe |]. unfold dict_values.
    rewrite map_map. apply Forall_map. exact Fw. }
  clearbody l. unfold deduplicate_aspects. destruct l as [| a l].
  - exists []. repeat split; constructor.
  - destruct (for_each_total (fun _ => True) (dedup_step self)
                (sorted_by_date (a :: l))) with (st := ([], []) : list aspect * tracking)
      as (r & E & _); [| exact I |].
    + intros st x Hx _. apply (proj1 (sorted_by_date_in _ _)) in Hx.
      rewrite Forall_forall in Fl. destruct (Fl x Hx) as [_ Hr].
      destruct (reported_has_target x Hr) as [t L].
      destruct (dedup_step_total st x t L) as [r R]. now exists r.
    + rewrite E. cbn [bind]. exists (fst r). split; [reflexivity | split].
      * apply Forall_forall. intros x Hx.
        destruct r as [ded tr].
        destruct (dedup_run_basic self _ _ _ _ E) as (Hin & _).
        destruct (Hin x Hx) as [[] | H].
        apply (proj1 (sorted_by_date_in _ _)) in H.
        rewrite Forall_forall in Fl. now apply Fl.
      * now pose proof (dedup_run_keeps_invariant self _ _ _
                          (sorted_by_date_sorted (a :: l))
                          (empty_state_invariant self _) E) as (S & _).
Qed.

Lemma date_loop_reported (step : Q) (n : nat) :
  0 <= step ->
  forall (current_date : Q) (ws : windows) (exact : list aspect),
    start <= current_date ->
    end_date < current_date + inject_Z (Z.of_nat n) * step ->
    Forall (fun entry => reported (best_aspect (snd entry))) ws ->
    Forall reported exact ->
    exists ws' exact',
      date_loop hlon_degrees self end_date step (S n) current_date (ws, exact)
      = Some (Ok (ws', exact')) /\
      Forall (fun entry => reported (best_aspect (snd entry))) ws' /\
      Forall reported exact'.
Proof.
  intros Hs. induction n as [| n IH]; intros cur ws exact Hc He Fw Fe.
  - cbn [date_loop]. change (inject_Z (Z.of_nat 0)) with 0 in He.
    assert (L : Qle_bool cur end_date = false) by (apply Qle_bool_gt; lra).
    rewrite L. now exists ws, exact.
  - remember (S n) as m. cbn [date_loop]. subst m.
    destruct (Qle_bool cur end_date) eqn:L; [| now exists ws, exact].
    apply Qle_bool_iff in L.
    destruct (for_each_total
                (fun st : windows * list aspect =>
                   Forall (fun entry => reported (best_aspect (snd entry))) (fst st)
                   /\ Forall reported (snd st))
                (track self cur)
                (find_aspects_for_date hlon_degrees self cur))
      with (st := (ws, exact)) as ([ws1 exact1] & E & F1 & F2).
    + intros [w0 e0] a Ha [I1 I2]. cbn [fst snd] in *.
      assert (Ra : reported a).
      { pose proof (DedupFacts.find_aspects_for_date_date _ _ _ _ Ha) as D.
        unfold reported. rewrite D. split; [lra | exact Ha]. }
      destruct (reported_has_target a (proj2 Ra)) as [t Lk].
      destruct (track_total self cur (w0, e0) a t Lk) as [r R].
      exists r. split; [exact R |].
      exact (track_all self reported cur w0 e0 a r Ra I1 I2 R).
    + now split.
    + rewrite E. cbn [fst snd] in *. apply IH; trivial; [lra |].
      rewrite Nat2Z.inj_succ in He. unfold Z.succ in He.
      rewrite inject_Z_plus in He. change (inject_Z 1) with 1 in He. lra.
Qed.

(** For a positive step [find_exact_aspect_dates] returns a list, whatever
    the positions are: it raises no [KeyError].  Every entry of the list
    is an aspect that [find_aspects_for_date] reports for the entry's own
    date, a date between [start] and [end]; and two entries of the same
    key are at least [min_days_between_aspects] apart. *)
Theorem find_exact_aspect_dates_returns (precision_hours : Q) :
  0 < precision_hours ->
  exists (fuel : nat) (events : list aspect),
    find_exact_aspect_dates hlon_degrees self start end_date precision_hours fuel
    = Some (Ok events) /\
    (forall e, In e events ->
       start <= date e <= end_date /\
       In e (find_aspects_for_date hlon_degrees self (date e))) /\
    ForallOrdPairs (spaced (self_min_days_between_aspects self)) events.
Proof.
  intros Hp.
  assert (Hs : 0 < precision_hours / 24) by (apply Qlt_shift_div_l; lra).
  destruct (steps_exceed start end_date _ Hs) as [n Hn].
  destruct (date_loop_reported (precision_hours / 24) n (Qlt_le_weak _ _ Hs)
              start [] [] (Qle_refl _) Hn (Forall_nil _) (Forall_nil _))
    as (ws & exact & D & Fw & Fe).
  destruct (flush_reported ws exact Fw Fe) as (events & Fl & Fr & Fs).
  exists (S n), events. unfold find_exact_aspect_dates.
  match goal with
  | |- context [date_loop ?h ?c ?e ?s ?f ?d ?st] =>
      replace (date_loop h c e s f d st) with (Some (Ok (ws, exact)))
        by (symmetry; exact D)
  end.
  split; [now rewrite Fl | split; [| exact Fs]].
  intros e He. rewrite Forall_forall in Fr. exact (Fr e He).
Qed.

(** The loop of [scan_date_range] leaves within [n + 1] turns once [n]
    steps pass the end date, with aspects of visited dates only. *)
Lemma scan_date_range_loop_returns (step : Q) (n : nat) :
  0 <= step ->
  forall (current_date : Q) (all_aspects : list aspect),
    start <= current_date ->
    end_date < current_date + inject_Z (Z.of_nat n) * step ->
    Forall reported all_aspects ->
    exists result,
      scan_date_range_loop hlon_degrees self end_date step (S n) current_date
        all_aspects = Some result /\
      Forall reported result.
Proof.
  intros Hs. induction n as [| n IH]; intros cur acc Hc He Fa.
  - cbn [scan_date_range_loop]. change (inject_Z (Z.of_nat 0)) with 0 in He.
    assert (L : Qle_bool cur end_date = false) by (apply Qle_bool_gt; lra).
    rewrite L. now exists acc.
  - remember (S n) as m. cbn [scan_date_range_loop]. subst m.
    destruct (Qle_bool cur end_date) eqn:L; [| now exists acc].
    apply Qle_bool_iff in L. apply IH; [lra | |].
    + rewrite Nat2Z.inj_succ in He. unfold Z.succ in He.
      rewrite inject_Z_plus in He. change (inject_Z 1) with 1 in He. lra.
    + apply Forall_app. split; [exact Fa |]. apply Forall_forall.
      intros a Ha.
      pose proof (DedupFacts.find_aspects_for_date_date _ _ _ _ Ha) as D.
      unfold reported. rewrite D. split; [lra | exact Ha].
Qed.

(** For a positive step [scan_date_range] returns, and every aspect it
    returns is one that [find_aspects_for_date] reports for the aspect's
    own date, a date between [start] and [end]. *)
Theorem scan_date_range_returns (step_days : Q) :
  0 < step_days ->
  exists (fuel : nat) (result : list aspect),
    scan_date_range hlon_degrees self start end_date step_days fuel
    = Some result /\
    forall a, In a result ->
      start <= date a <= end_date /\
      In a (find_aspects_for_date hlon_degrees self (date a)).
Proof.
  intros Hs. destruct (steps_exceed start end_date _ Hs) as [n Hn].
  destruct (scan_date_range_loop_returns step_days n (Qlt_le_weak _ _ Hs)
              start [] (Qle_refl _) Hn (Forall_nil _)) as (result & R & F).
  exists (S n), result. split; [exact R |].
  intros a Ha. rewrite Forall_forall in F. exact (F a Ha).
Qed.

End ExactDates.

Lemma find_exact_aspect_dates_returns_witness :
  0 < 24 /\
  exists (fuel : nat) (events : list aspect),
    find_exact_aspect_dates Stubs.two_passes Stubs.slow_planets_calculator
      0 100 24 fuel = Some (Ok events) /\
    (forall e, In e events ->
       0 <= date e <= 100 /\
       In e (find_aspects_for_date Stubs.two_passes
               Stubs.slow_planets_calculator (date e))) /\
    ForallOrdPairs
      (spaced (self_min_days_between_aspects Stubs.slow_planets_calculator))
      events.
Proof.
  assert (H : 0 < 24) by reflexivity.
  split; [exact H |].
  exact (find_exact_aspect_dates_returns Stubs.two_passes
           Stubs.slow_planets_calculator 0 100 24 H).
Defined.

Lemma scan_date_range_returns_witness :
  0 < 1 /\
  scan_date_range Stubs.two_passes Stubs.slow_planets_calculator 0 100 1 200
  = Some [Stubs.first_pass; Stubs.second_pass] /\
  exists (fuel : nat) (result : list aspect),
    scan_date_range Stubs.two_passes Stubs.slow_planets_calculator 0 100 1 fuel
    = Some result /\
    forall a, In a result ->
      0 <= date a <= 100 /\
      In a (find_aspects_for_date Stubs.two_passes
              Stubs.slow_planets_calculator (date a)).
Proof.
  assert (H : 0 < 1) by reflexivity.
  split; [exact H | split; [vm_compute; reflexivity |]].
  exact (scan_date_range_returns Stubs.two_passes
           Stubs.slow_planets_calculator 0 100 1 H).
Defined.

(** Whatever the three toggles are, [set_planet_groups] leaves a list of
    distinct planets, all among the ten known ones, and returns their
    number, 2, 3 and 5 for the groups that are switched on; the catalog,
    the orb and the minimum spacing are not touched.  The settings of
    [__init__] give the default calculator. *)
Theorem set_planet_groups_counts (self : calculator)
  (use_luminaries use_fast_planets use_slow_planets : bool) :
  let (self', n) :=
    set_planet_groups self use_luminaries use_fast_planets use_slow_planets in
  NoDup (self_planets self') /\
  incl (self_planets self') Scanner.all_planets /\
  n = List.length (self_planets self') /\
  n = ((if use_luminaries then 2 else 0) + (if use_fast_planets then 3 else 0)
       + (if use_slow_planets then 5 else 0))%nat /\
  self_aspects self' = self_aspects self /\ self_orb self' = self_orb self /\
  self_min_days_between_aspects self' = self_min_days_between_aspects self /\
  fst (set_planet_groups default_calculator true false true) = default_calculator.
Proof.
  unfold set_planet_groups. cbn [self_planets self_aspects self_orb
                                   self_min_days_between_aspects].
  repeat split.
  - destruct use_luminaries, use_fast_planets, use_slow_planets; cbn;
      repeat (constructor; [cbn; intuition discriminate |]); constructor.
  - destruct use_luminaries, use_fast_planets, use_slow_planets; cbn;
      intros x Hx; cbn in Hx |- *; tauto.
  - destruct use_luminaries, use_fast_planets, use_slow_planets; reflexivity.
Qed.

Section TwoPasses.

Variable self : calculator.

(** Two candidates of one key more than 30 days apart, the later one no
    more precise than the earlier, are both reported, in date order,
    provided they are also [min_days_between_aspects] apart: the earlier is
    committed when the later arrives and the later at the end. *)
Theorem later_coarser_pass_keeps_both (c1 c2 : aspect) (target : Q) :
  lookup (self_aspects self) (aspect_name c1) = Ok target ->
  key_of c2 = key_of c1 ->
  window_days < date c2 - date c1 ->
  self_min_days_between_aspects self <= date c2 - date c1 ->
  angle_precision target c1 <= angle_precision target c2 ->
  committed self [c1; c2] = Ok [c1; c2].
Proof.
  intros L K D M P.
  assert (N : aspect_name c2 = aspect_name c1)
    by (change (snd (key_of c2) = snd (key_of c1)); now rewrite K).
  unfold committed, feed. cbn [for_each].
  assert (T1 : track self (date c1) ([], []) c1
               = Ok ([(key_of c1, opened target c1)], [])).
  { unfold track. rewrite L. reflexivity. }
  rewrite T1. cbn [bind].
  assert (T2 : track self (date c2) ([(key_of c1, opened target c1)], []) c2
               = Ok ([(key_of c1, opened target c2)], [c1])).
  { unfold track. rewrite N, L. cbn [bind dict_get]. rewrite K, key_eqb_refl_c.
    cbn [opened best_precision last_seen best_aspect].
    fold (angle_precision target c2).
    assert (E1 : Qltb (angle_precision target c2) (angle_precision target c1)
                 = false) by now apply Qltb_ge.
    assert (E2 : Qltb window_days (date c2 - date c1) = true)
      by now apply Qltb_lt.
    rewrite E1, E2. cbn [dict_set]. rewrite key_eqb_refl_c. reflexivity. }
  rewrite T2. cbn [bind]. unfold flush, dict_values. cbn [fst snd map app].
  unfold deduplicate_aspects, sorted_by_date.
  cbn [fold_right insert_by_date opened best_aspect].
  assert (E3 : Qle_bool (date c1) (date c2) = true).
  { apply Qle_bool_iff. unfold window_days in D. lra. }
  rewrite E3. cbn [for_each].
  assert (S1 : dedup_step self ([], []) c1
               = Ok ([c1], [(key_of c1, (date c1, angle c1))])).
  { reflexivity. }
  rewrite S1. cbn [bind].
  assert (S2 : dedup_step self ([c1], [(key_of c1, (date c1, angle c1))]) c2
               = Ok ([c1; c2], [(key_of c1, (date c2, angle c2))])).
  { unfold dedup_step. fold (key_of c2). rewrite K. cbn [dict_get].
    rewrite key_eqb_refl_c.
    assert (E4 : Qltb (date c2 - date c1) (self_min_days_between_aspects self)
                 = false) by now apply Qltb_ge.
    rewrite E4. cbn [bind app dict_set]. rewrite key_eqb_refl_c. reflexivity. }
  rewrite S2. reflexivity.
Qed.

End TwoPasses.

Lemma later_coarser_pass_keeps_both_witness :
  let c1 := mk_aspect 0 "Jupiter" "Saturn" "Conjunction" (2 # 10) 0 (2 # 10) in
  let c2 := mk_aspect 100 "Jupiter" "Saturn" "Conjunction" (5 # 10) 0 (5 # 10) in
  lookup (self_aspects default_calculator) (aspect_name c1) = Ok 0 /\
  key_of c2 = key_of c1 /\ window_days < date c2 - date c1 /\
  self_min_days_between_aspects default_calculator <= date c2 - date c1 /\
  angle_precision 0 c1 <= angle_precision 0 c2 /\
  committed default_calculator [c1; c2] = Ok [c1; c2].
Proof.
  cbv zeta.
  assert (H3 : window_days < 100 - 0) by reflexivity.
  assert (H4 : self_min_days_between_aspects default_calculator <= 100 - 0)
    by (vm_compute; discriminate).
  assert (H5 : angle_precision 0
                 (mk_aspect 0 "Jupiter" "Saturn" "Conjunction" (2 # 10) 0 (2 # 10))
               <= angle_precision 0
                 (mk_aspect 100 "Jupiter" "Saturn" "Conjunction" (5 # 10) 0 (5 # 10)))
    by (vm_compute; discriminate).
  split; [reflexivity | split; [reflexivity | split; [exact H3 |]]].
  split; [exact H4 | split; [exact H5 |]].
  apply (later_coarser_pass_keeps_both default_calculator
           (mk_aspect 0 "Jupiter" "Saturn" "Conjunction" (2 # 10) 0 (2 # 10))
           (mk_aspect 100 "Jupiter" "Saturn" "Conjunction" (5 # 10) 0 (5 # 10))
           0); [reflexivity | reflexivity | exact H3 | exact H4 | exact H5].
Defined.

Lemma deduplicate_aspects_selects_witness :
  let at_day (d angle : Q) :=
    mk_aspect d "Jupiter" "Saturn" "Conjunction" angle 0 angle in
  let input := [at_day 30 (3 # 10); at_day 0 (1 # 2); at_day 10 (1 # 10);
                at_day 5 (45 # 100)] in
  let result := [at_day 10 (1 # 10); at_day 30 (3 # 10)] in
  deduplicate_aspects default_calculator input = Ok result /\
  (forall x, In x result -> In x input) /\
  (List.length result <= List.length input)%nat /\
  StronglySorted not_later result /\
  (input <> [] -> result <> []).
Proof.
  cbv zeta. split; [vm_compute; reflexivity |].
  apply (deduplicate_aspects_selects default_calculator).
  vm_compute. reflexivity.
Defined.

Lemma deduplicate_aspects_spaces_same_key_witness :
  let at_day (d angle : Q) :=
    mk_aspect d "Jupiter" "Saturn" "Conjunction" angle 0 angle in
  let input := [at_day 30 (3 # 10); at_day 0 (1 # 2); at_day 10 (1 # 10);
                at_day 5 (45 # 100)] in
  let result := [at_day 10 (1 # 10); at_day 30 (3 # 10)] in
  deduplicate_aspects default_calculator input = Ok result /\
  ForallOrdPairs (spaced (self_min_days_between_aspects default_calculator))
    result.
Proof.
  cbv zeta. split; [vm_compute; reflexivity |].
  apply (deduplicate_aspects_spaces_same_key default_calculator
           [mk_aspect 30 "Jupiter" "Saturn" "Conjunction" (3 # 10) 0 (3 # 10);
            mk_aspect 0 "Jupiter" "Saturn" "Conjunction" (1 # 2) 0 (1 # 2);
            mk_aspect 10 "Jupiter" "Saturn" "Conjunction" (1 # 10) 0 (1 # 10);
            mk_aspect 5 "Jupiter" "Saturn" "Conjunction" (45 # 100) 0 (45 # 100)]).
  vm_compute. reflexivity.
Defined.

End CalculatorFacts.

(** ** The custom Gann finder *)

Module CustomFacts.

Import CustomGann.

(** *** Dictionaries with string keys *)

Lemma string_dict_set_absent {V : Type} (d : list (string * V)) (k : string) (v : V) :
  ~ In k (map fst d) -> dict_set String.eqb d k v = d ++ [(k, v)].
Proof.
  induction d as [| [k0 v0] d IH]; cbn [dict_set map fst In app];
    [reflexivity |].
  intros N. destruct (String.eqb_spec k0 k) as [-> | Ne].
  - exfalso. apply N. now left.
  - f_equal. apply IH. intros H. apply N. now right.
Qed.

Lemma string_dict_set_keys {V : Type} (d : list (string * V)) (k x : string) (v : V) :
  In x (map fst (dict_set String.eqb d k v)) -> In x (map fst d) \/ x = k.
Proof.
  induction d as [| [k0 v0] d IH]; cbn [dict_set map fst In].
  - intros [<- | []]. now right.
  - destruct (String.eqb k0 k); cbn [map fst In]; [intuition |].
    intros [H | H]; [now left; left |].
    destruct (IH H); [left; now right | now right].
Qed.

Lemma string_dict_set_nodup {V : Type} (d : list (string * V)) (k : string) (v : V) :
  NoDup (map fst d) -> NoDup (map fst (dict_set String.eqb d k v)).
Proof.
  induction d as [| [k0 v0] d IH]; cbn [dict_set map fst]; intros N.
  - repeat constructor. intros [].
  - inversion N as [| ? ? Nk Nd]; subst.
    destruct (String.eqb_spec k0 k) as [-> | Ne]; cbn [map fst];
      [now constructor |].
    constructor; [| now apply IH].
    intros H. apply string_dict_set_keys in H. destruct H as [H | ->];
      [contradiction | now apply Ne].
Qed.

Lemma gann_angles_keys (angles : list Z) :
  NoDup (map fst (gann_angles_of angles)) /\
  forall k, In k (map fst (gann_angles_of angles)) ->
            exists angle, In angle angles /\ k = gann_name angle.
Proof.
  unfold gann_angles_of.
  assert (G : forall (d : list (string * Q)),
             NoDup (map fst d) ->
             NoDup (map fst (fold_left
                      (fun d angle => dict_set String.eqb d (gann_name angle)
                                        (inject_Z angle)) angles d)) /\
             forall k, In k (map fst (fold_left
                      (fun d angle => dict_set String.eqb d (gann_name angle)
                                        (inject_Z angle)) angles d)) ->
                       In k (map fst d) \/
                       exists angle, In angle angles /\ k = gann_name angle).
  { induction angles as [| a angles IH]; intros d N; cbn [fold_left].
    - split; [exact N | now left].
    - destruct (IH (dict_set String.eqb d (gann_name a) (inject_Z a))
                  (string_dict_set_nodup _ _ _ N)) as [N' K'].
      split; [exact N' |]. intros k Hk. destruct (K' k Hk) as [H | (b & Hb & ->)].
      + apply string_dict_set_keys in H. destruct H as [H | ->]; [now left |].
        right. exists a. split; [now left | reflexivity].
      + right. exists b. split; [now right | reflexivity]. }
  destruct (G [] (NoDup_nil _)) as [N K]. split; [exact N |].
  intros k Hk. destruct (K k Hk) as [[] | H]. exact H.
Qed.

Lemma merged_disjoint (b : list (string * Q)) : forall a : list (string * Q),
  NoDup (map fst b) ->
  (forall k, In k (map fst b) -> ~ In k (map fst a)) ->
  merged a b = a ++ b.
Proof.
  unfold merged. induction b as [| [k v] b IH]; intros a N D; cbn [fold_left];
    [now rewrite app_nil_r |].
  cbn [map fst] in N. inversion N as [| ? ? Nk Nb]; subst. cbn [fst snd].
  rewrite string_dict_set_absent by (apply D; now left).
  rewrite IH; [now rewrite <- app_assoc | exact Nb |].
  intros x Hx Hin. rewrite map_app in Hin. apply in_app_or in Hin.
  destruct Hin as [Hin | [<- | []]].
  - apply (D x); [now right | exact Hin].
  - contradiction.
Qed.

(** The catalog [self.aspects] lists the six standard aspects first, in
    their declared order, and then the Gann angles as [gann_angles] has
    them; all its names are distinct. *)
Theorem custom_catalog_is_standard_then_gann (angles : list Z) :
  aspects_of angles = standard_aspects ++ gann_angles_of angles /\
  NoDup (map fst (aspects_of angles)).
Proof.
  destruct (gann_angles_keys angles) as [N K].
  assert (D : forall k, In k (map fst (gann_angles_of angles)) ->
                        ~ In k (map fst standard_aspects)).
  { intros k Hk Hs. destruct (K k Hk) as (a & _ & ->).
    unfold gann_name in Hs. cbn in Hs.
    decompose [or] Hs; try discriminate; contradiction. }
  assert (E : aspects_of angles = standard_aspects ++ gann_angles_of angles)
    by (apply merged_disjoint; assumption).
  split; [exact E |]. rewrite E, map_app.
  apply NoDup_app; [| exact N |].
  - cbn. repeat (constructor; [cbn; intuition discriminate |]). constructor.
  - intros k Hs Hk. exact (D k Hk Hs).
Qed.

Example custom_catalog_104_192 :
  aspects_of [104; 192; 104]%Z
  = standard_aspects ++ [("Gann104", 104); ("Gann192", 192)]%string.
Proof. reflexivity. Qed.

Lemma first_on_arc_out_of_reach (gann : list (string * Q)) (orb l : Q) :
  180 <= l -> (forall item, In item gann -> snd item + orb < 180) ->
  first_on_arc gann orb l = None.
Proof.
  intros Hl. induction gann as [| [n a] gann IH]; intros H; cbn [first_on_arc];
    [reflexivity |].
  pose proof (H (n, a) (or_introl eq_refl)) as Ha. cbn [snd] in Ha.
  assert (E : Qle_bool (Qabs (l - a)) orb = false).
  { apply (proj2 (Qle_bool_gt _ _)).
    apply Qlt_le_trans with (l - a); [lra | apply Qle_Qabs]. }
  rewrite E. apply IH. intros item Hi. apply H. now right.
Qed.

(** A Gann angle with [angle + orb < 180] is never matched: the long arc
    it is tested against is at least 180.  When all Gann angles are of this
    kind, [get_aspect_type] answers as if there were none. *)
Theorem small_gann_angles_never_match
  (standard gann : list (string * Q)) (orb lon1 lon2 : Q) :
  (forall item, In item gann -> snd item + orb < 180) ->
  let (short_arc, long_arc) := calculate_angle_between_planets lon1 lon2 in
  get_aspect_type standard gann orb short_arc long_arc
  = get_aspect_type standard [] orb short_arc long_arc.
Proof.
  intros H.
  pose proof (AngleFacts.arcs_add_up lon1 lon2) as (_ & _ & L).
  change (AngleMath.angular_distance_both_arcs lon1 lon2)
    with (calculate_angle_between_planets lon1 lon2) in L.
  destruct (calculate_angle_between_planets lon1 lon2) as [s l].
  cbn [snd] in L. unfold get_aspect_type.
  now rewrite (first_on_arc_out_of_reach gann orb l L H).
Qed.

Lemma small_gann_angles_never_match_witness :
  let gann := [("Gann104", 104)]%string in
  (forall item, In item gann -> snd item + 1 < 180) /\
  (let (short_arc, long_arc) := calculate_angle_between_planets 0 104 in
   get_aspect_type standard_aspects gann 1 short_arc long_arc = EmptyString) /\
  (let (short_arc, long_arc) := calculate_angle_between_planets 0 104 in
   get_aspect_type standard_aspects gann 1 short_arc long_arc
   = get_aspect_type standard_aspects [] 1 short_arc long_arc).
Proof.
  cbv zeta.
  assert (H : forall item, In item [("Gann104"%string, 104)] -> snd item + 1 < 180)
    by (intros item [<- | []]; reflexivity).
  split; [exact H | split; [reflexivity |]].
  exact (small_gann_angles_never_match standard_aspects
           [("Gann104"%string, 104)] 1 0 104 H).
Defined.

End CustomFacts.

(** ** The interactive calculator *)

Module InteractiveFacts.

Import Interactive.

Section Gann.

Variable calc_ut : Z -> Q -> Scanner.swe_outcome.
Variable gann_angles : list Q.
Variable orb : Q.

Lemma check_pair_aborts (jd : Q) (found : list row) (p1 p2 : string) (code : Z) :
  lookup Scanner.planets p1 = Ok code \/ lookup Scanner.planets p2 = Ok code ->
  calc_ut code jd = Scanner.SweRaises ->
  check_pair calc_ut gann_angles orb jd found (p1, p2) = None.
Proof.
  intros H R. unfold check_pair.
  assert (C : calculate_position calc_ut code jd = None)
    by (unfold calculate_position; now rewrite R).
  destruct H as [L | L].
  - now rewrite L, C.
  - destruct (lookup Scanner.planets p1) as [code1 |]; [| reflexivity].
    destruct (calculate_position calc_ut code1 jd); [| reflexivity].
    now rewrite L, C.
Qed.

Lemma check_pairs_abort (jd : Q) (code : Z) (pairs : list (string * string)) :
  calc_ut code jd = Scanner.SweRaises ->
  (exists p1 p2, In (p1, p2) pairs /\
     (lookup Scanner.planets p1 = Ok code \/ lookup Scanner.planets p2 = Ok code)) ->
  forall found, check_pairs calc_ut gann_angles orb jd pairs found = None.
Proof.
  intros R. induction pairs as [| [q1 q2] pairs IH]; intros (p1 & p2 & Hin & L) found.
  - destruct Hin.
  - cbn [check_pairs].
    destruct (check_pair calc_ut gann_angles orb jd found (q1, q2)) as [f |] eqn:E;
      [| reflexivity].
    destruct Hin as [[= -> ->] | Hin].
    + now rewrite (check_pair_aborts jd found p1 p2 code L R) in E.
    + apply IH. now exists p1, p2.
Qed.

Lemma every_body_is_paired (name : string) (code : Z) :
  In (name, code) Scanner.planets ->
  exists p1 p2,
    In (p1, p2) (Scanner.pairs_of Scanner.all_planets) /\
    (lookup Scanner.planets p1 = Ok code \/ lookup Scanner.planets p2 = Ok code).
Proof.
  intros H. cbn in H.
  destruct H as [[= <- <-] | H].
  - exists "Sun"%string, "Moon"%string. split; [now left | now left].
  - exists "Sun"%string, name.
    decompose [or] H; try contradiction;
      match goal with E : (_, _) = (_, _) |- _ => injection E as <- <- end;
      (split; [cbn; tauto | right; reflexivity]).
Qed.

Lemma iter_step_ge (step : Q) (k : nat) (jd : Q) :
  0 <= step -> jd <= Nat.iter k (fun c => c + step) jd.
Proof.
  intros Hs. induction k as [| k IH]; [apply Qle_refl |].
  rewrite Nat.iter_succ. lra.
Qed.

Lemma gann_loop_aborts (end_jd step_jd : Q) (code : Z) (name : string) :
  0 <= step_jd -> In (name, code) Scanner.planets ->
  forall (fuel k : nat) (current_jd : Q) (found result : list row),
    Nat.iter k (fun c => c + step_jd) current_jd <= end_jd ->
    calc_ut code (Nat.iter k (fun c => c + step_jd) current_jd)
    = Scanner.SweRaises ->
    gann_loop calc_ut gann_angles orb end_jd step_jd fuel current_jd found
    = Some result ->
    result = [].
Proof.
  intros Hs Hp. induction fuel as [| fuel IH]; intros k cur found result Hk R;
    cbn [gann_loop]; [discriminate |].
  pose proof (iter_step_ge step_jd k cur Hs) as G.
  assert (L : Qle_bool cur end_jd = true) by (apply Qle_bool_iff; lra).
  rewrite L.
  destruct (check_pairs calc_ut gann_angles orb cur _ found) as [found' |] eqn:E;
    [| now intros [= <-]].
  destruct k as [| k].
  - change (Nat.iter 0 (fun c => c + step_jd) cur) with cur in R.
    now rewrite (check_pairs_abort cur code _ R (every_body_is_paired _ _ Hp)) in E.
  - rewrite Nat.iter_succ_r in Hk, R. now apply (IH k).
Qed.

(** The loop leaves with the empty list at the first instant where the
    ephemeris raises: within [k + 1] turns when it raises at the instant
    of turn [k + 1]. *)
Lemma gann_loop_aborts_within (end_jd step_jd : Q) (code : Z) (name : string) :
  0 <= step_jd -> In (name, code) Scanner.planets ->
  forall (k m : nat) (current_jd : Q) (found : list row),
    Nat.iter k (fun c => c + step_jd) current_jd <= end_jd ->
    calc_ut code (Nat.iter k (fun c => c + step_jd) current_jd)
    = Scanner.SweRaises ->
    gann_loop calc_ut gann_angles orb end_jd step_jd (S k + m) current_jd found
    = Some [].
Proof.
  intros Hs Hp. induction k as [| k IH]; intros m cur found Hk R.
  - change (Nat.iter 0 (fun c => c + step_jd) cur) with cur in Hk, R.
    change (1 + m)%nat with (S m). cbn [gann_loop].
    assert (L : Qle_bool cur end_jd = true) by now apply Qle_bool_iff.
    rewrite L.
    now rewrite (check_pairs_abort cur code _ R (every_body_is_paired _ _ Hp)).
  - rewrite Nat.iter_succ_r in Hk, R.
    change (S (S k) + m)%nat with (S (S k + m)). cbn [gann_loop].
    pose proof (iter_step_ge step_jd k (cur + step_jd) Hs) as G.
    assert (L : Qle_bool cur end_jd = true) by (apply Qle_bool_iff; lra).
    rewrite L.
    destruct (check_pairs calc_ut gann_angles orb cur _ found) as [found' |];
      [| reflexivity].
    now apply IH.
Qed.

(** When the ephemeris raises for one of the ten bodies at an instant the
    scan visits, the one of turn [k + 1] of its loop, [find_gann_aspects]
    returns within [k + 1] turns, and what it returns is the empty list:
    the rows found before are given up. *)
Theorem ephemeris_error_empties_the_result
  (start_jd end_jd step_hours : Q) (k : nat) (name : string) (code : Z) :
  0 <= step_hours -> In (name, code) Scanner.planets ->
  Nat.iter k (fun c => c + step_hours / 24) start_jd <= end_jd ->
  calc_ut code (Nat.iter k (fun c => c + step_hours / 24) start_jd)
  = Scanner.SweRaises ->
  (forall fuel : nat,
     (k < fuel)%nat ->
     find_gann_aspects calc_ut gann_angles orb start_jd end_jd step_hours fuel
     = Some []) /\
  (forall (fuel : nat) (result : list row),
     find_gann_aspects calc_ut gann_angles orb start_jd end_jd step_hours fuel
     = Some result ->
     result = []).
Proof.
  intros Hs Hp Hk R. unfold find_gann_aspects.
  assert (Hd : 0 <= step_hours / 24) by (apply Qle_shift_div_l; lra).
  split.
  - intros fuel Hf. replace fuel with (S k + (fuel - S k))%nat by lia.
    exact (gann_loop_aborts_within end_jd (step_hours / 24) code name Hd Hp
             k _ start_jd [] Hk R).
  - intros fuel result.
    exact (gann_loop_aborts end_jd (step_hours / 24) code name Hd Hp
             fuel k start_jd [] result Hk R).
Qed.

Lemma check_pair_justifies (start_jd end_jd step_jd jd : Q)
  (found found' : list row) (p : string * string) :
  In p (Scanner.pairs_of Scanner.all_planets) ->
  scanned start_jd end_jd step_jd jd ->
  Forall (justified calc_ut gann_angles orb start_jd end_jd step_jd) found ->
  check_pair calc_ut gann_angles orb jd found p = Some found' ->
  Forall (justified calc_ut gann_angles orb start_jd end_jd step_jd) found'.
Proof.
  intros Hp Hs Hf. destruct p as [p1 p2]. unfold check_pair.
  destruct (lookup Scanner.planets p1) as [code1 |] eqn:L1; [| discriminate].
  destruct (calculate_position calc_ut code1 jd) as [[lon1 |] |] eqn:C1;
    [| | discriminate].
  - destruct (lookup Scanner.planets p2) as [code2 |] eqn:L2; [| discriminate].
    destruct (calculate_position calc_ut code2 jd) as [[lon2 |] |] eqn:C2;
      [| now intros [= <-] | discriminate].
    destruct (is_aspect_within_any _ gann_angles orb) eqn:W;
      [| now intros [= <-]].
    intros [= <-]. apply Forall_app. split; [exact Hf |].
    constructor; [| constructor].
    unfold is_aspect_within_any in W. apply existsb_exists in W.
    destruct W as (t & Ht & Wt).
    split; [exact Hp |].
    exists jd, lon1, lon2, t, code1, code2. cbn [planet1 planet2 angle].
    repeat split; assumption.
  - destruct (lookup Scanner.planets p2) as [code2 |]; [| discriminate].
    destruct (calculate_position calc_ut code2 jd) as [pos2 |];
      [now intros [= <-] | discriminate].
Qed.

Lemma check_pairs_justify (start_jd end_jd step_jd jd : Q)
  (pairs : list (string * string)) :
  incl pairs (Scanner.pairs_of Scanner.all_planets) ->
  scanned start_jd end_jd step_jd jd ->
  forall found found',
    Forall (justified calc_ut gann_angles orb start_jd end_jd step_jd) found ->
    check_pairs calc_ut gann_angles orb jd pairs found = Some found' ->
    Forall (justified calc_ut gann_angles orb start_jd end_jd step_jd) found'.
Proof.
  intros Hi Hs. induction pairs as [| p pairs IH]; intros found found' Hf;
    cbn [check_pairs]; [now intros [= <-] |].
  destruct (check_pair calc_ut gann_angles orb jd found p) as [f |] eqn:E;
    [| discriminate].
  apply IH; [intros x Hx; apply Hi; now right |].
  apply (check_pair_justifies start_jd end_jd step_jd jd found f p); trivial.
  apply Hi. now left.
Qed.

Lemma gann_loop_justifies (start_jd end_jd step_jd : Q) (fuel : nat) :
  forall (k : nat) (current_jd : Q) (found result : list row),
    current_jd == start_jd + inject_Z (Z.of_nat k) * step_jd ->
    Forall (justified calc_ut gann_angles orb start_jd end_jd step_jd) found ->
    gann_loop calc_ut gann_angles orb end_jd step_jd fuel current_jd found
    = Some result ->
    Forall (justified calc_ut gann_angles orb start_jd end_jd step_jd) result.
Proof.
  induction fuel as [| fuel IH]; intros k cur found result Hk Hf;
    cbn [gann_loop]; [discriminate |].
  destruct (Qle_bool cur end_jd) eqn:L; [| now intros [= <-]].
  apply Qle_bool_iff in L.
  destruct (check_pairs calc_ut gann_angles orb cur _ found) as [found' |] eqn:E;
    [| intros [= <-]; constructor].
  apply (IH (S k)).
  - rewrite Nat2Z.inj_succ. unfold Z.succ. rewrite inject_Z_plus.
    change (inject_Z 1) with 1. rewrite Hk. ring.
  - apply (check_pairs_justify start_jd end_jd step_jd cur _ (incl_refl _))
      with (found := found); trivial.
    exists k. now split.
Qed.

Lemma gann_loop_returns (end_jd step_jd : Q) (n : nat) :
  forall (current_jd : Q) (found : list row),
    end_jd < current_jd + inject_Z (Z.of_nat n) * step_jd ->
    gann_loop calc_ut gann_angles orb end_jd step_jd (S n) current_jd found
    <> None.
Proof.
  induction n as [| n IH]; intros cur found H.
  - cbn [gann_loop]. change (inject_Z (Z.of_nat 0)) with 0 in H.
    assert (L : Qle_bool cur end_jd = false) by (apply Qle_bool_gt; lra).
    rewrite L. discriminate.
  - remember (S n) as m. cbn [gann_loop]. subst m.
    destruct (Qle_bool cur end_jd); [| discriminate].
    destruct (check_pairs _ _ _ cur _ found); [| discriminate].
    apply IH. rewrite Nat2Z.inj_succ in H. unfold Z.succ in H.
    rewrite inject_Z_plus in H. change (inject_Z 1) with 1 in H. lra.
Qed.

(** For a positive step [find_gann_aspects] returns.  Every row it
    returns is for an ordered pair of the ten bodies and holds the short
    arc, rounded to four places, of two longitudes that the ephemeris gave
    at a visited instant, an arc within the orb of one of the requested
    angles; with no requested angle the result is empty. *)
Theorem find_gann_aspects_rows_match_a_requested_angle
  (start_jd end_jd step_hours : Q) :
  0 < step_hours ->
  (exists fuel,
     find_gann_aspects calc_ut gann_angles orb start_jd end_jd step_hours fuel
     <> None) /\
  forall (fuel : nat) (result : list row),
    find_gann_aspects calc_ut gann_angles orb start_jd end_jd step_hours fuel
    = Some result ->
    Forall (justified calc_ut gann_angles orb start_jd end_jd (step_hours / 24))
           result /\
    (gann_angles = [] -> result = []).
Proof.
  intros Hs. split.
  - assert (Hd : 0 < step_hours / 24) by (apply Qlt_shift_div_l; lra).
    destruct (CalculatorFacts.steps_exceed start_jd end_jd _ Hd) as [n Hn].
    exists (S n). unfold find_gann_aspects. now apply gann_loop_returns.
  - intros fuel result H. unfold find_gann_aspects in H.
    assert (J : Forall (justified calc_ut gann_angles orb start_jd end_jd
                          (step_hours / 24)) result).
    { apply (gann_loop_justifies start_jd end_jd (step_hours / 24) fuel 0%nat
               start_jd [] result); trivial.
      change (inject_Z (Z.of_nat 0)) with 0. ring. }
    split; [exact J |].
    intros E. destruct result as [| r rest]; [reflexivity |].
    inversion J as [| ? ? (_ & jd & l1 & l2 & t & c1 & c2 & Hr) _].
    destruct Hr as (_ & _ & _ & _ & _ & Ht & _). rewrite E in Ht. destruct Ht.
Qed.

End Gann.

Lemma ephemeris_error_empties_the_result_witness :
  0 <= 24 /\ In ("Pluto"%string, 9%Z) Scanner.planets /\
  Nat.iter 1 (fun c => c + 24 / 24) 1 <= 3 /\
  InteractiveStubs.pluto_fails 9 (Nat.iter 1 (fun c => c + 24 / 24) 1)
  = Scanner.SweRaises /\
  (exists row,
     find_gann_aspects InteractiveStubs.pluto_fails [90] (1 # 2) 1 (3 # 2) 24 10
     = Some [row]) /\
  (forall fuel : nat,
     (1 < fuel)%nat ->
     find_gann_aspects InteractiveStubs.pluto_fails [90] (1 # 2) 1 3 24 fuel
     = Some []) /\
  (forall (fuel : nat) (result : list row),
     find_gann_aspects InteractiveStubs.pluto_fails [90] (1 # 2) 1 3 24 fuel
     = Some result ->
     result = []).
Proof.
  assert (H0 : 0 <= 24) by (vm_compute; discriminate).
  assert (Hp : In ("Pluto"%string, 9%Z) Scanner.planets) by (cbn; tauto).
  assert (Hk : Nat.iter 1 (fun c => c + 24 / 24) 1 <= 3)
    by (vm_compute; discriminate).
  assert (Hr : InteractiveStubs.pluto_fails 9 (Nat.iter 1 (fun c => c + 24 / 24) 1)
               = Scanner.SweRaises) by reflexivity.
  split; [exact H0 | split; [exact Hp | split; [exact Hk | split; [exact Hr |]]]].
  split; [eexists; vm_compute; reflexivity |].
  exact (ephemeris_error_empties_the_result InteractiveStubs.pluto_fails [90]
           (1 # 2) 1 3 24 1 "Pluto" 9 H0 Hp Hk Hr).
Defined.

Lemma find_gann_aspects_rows_match_a_requested_angle_witness :
  0 < 24 /\
  (exists row,
     find_gann_aspects InteractiveStubs.pluto_fails [90] (1 # 2) 1 (3 # 2) 24 10
     = Some [row] /\
     justified InteractiveStubs.pluto_fails [90] (1 # 2) 1 (3 # 2) (24 / 24) row).
Proof.
  assert (H : 0 < 24) by reflexivity.
  split; [exact H |].
  eexists. split; [vm_compute; reflexivity |].
  pose proof (find_gann_aspects_rows_match_a_requested_angle
                InteractiveStubs.pluto_fails [90] (1 # 2) 1 (3 # 2) 24 H)
    as [_ K].
  destruct (K 10%nat _ ltac:(vm_compute; reflexivity)) as [J _].
  now inversion J.
Defined.

End InteractiveFacts.
